(** * assistant_bot: a contact book with phones and birthdays

    A shallow embedding of [assistant_bot.py] (the field classes [Phone] and
    [Birthday], the class [Record], the class [AddressBook] with
    [get_upcoming_birthdays]) together with the parts of the Python run-time
    the program calls ([str.isdigit], [datetime.date], [datetime.timedelta],
    [datetime.datetime.strptime] and [strftime] for the format
    ["%d.%m.%Y"]), followed by the properties of the program's specification
    that were checked against it. *)

From Stdlib Require Import ZArith List Lia Bool String Ascii.
Import ListNotations.
Local Open Scope Z_scope.

(** ** Python values *)

(** A Python [str] is a sequence of Unicode code points. *)
Definition char := N.
Definition str := list char.

(** A literal of the source, written as a Rocq string of ASCII characters. *)
Definition py (s : string) : str := map N_of_ascii (list_ascii_of_string s).

Definition char_eqb (a b : char) : bool := N.eqb a b.

Fixpoint str_eqb (a b : str) : bool :=
  match a, b with
  | [], [] => true
  | x :: a', y :: b' => char_eqb x y && str_eqb a' b'
  | _, _ => false
  end.

Definition len {A : Type} (l : list A) : Z := Z.of_nat (List.length l).

(** Membership of a code point in a table of inclusive ranges. *)
Definition in_ranges (tbl : list (N * N)) (c : char) : bool :=
  existsb (fun r => (fst r <=? c)%N && (c <=? snd r)%N) tbl.

(** The code points of general category Nd (decimal digits), Unicode 14.0 as
    shipped with CPython 3.11.  Every range is a run of whole decades
    starting at a digit zero, so the value of a digit is its offset in the
    range modulo ten. *)
Definition decimal_ranges : list (N * N) :=
  [ (0x30, 0x39); (0x660, 0x669); (0x6f0, 0x6f9); (0x7c0, 0x7c9);
    (0x966, 0x96f); (0x9e6, 0x9ef); (0xa66, 0xa6f); (0xae6, 0xaef);
    (0xb66, 0xb6f); (0xbe6, 0xbef); (0xc66, 0xc6f); (0xce6, 0xcef);
    (0xd66, 0xd6f); (0xde6, 0xdef); (0xe50, 0xe59); (0xed0, 0xed9);
    (0xf20, 0xf29); (0x1040, 0x1049); (0x1090, 0x1099); (0x17e0, 0x17e9);
    (0x1810, 0x1819); (0x1946, 0x194f); (0x19d0, 0x19d9); (0x1a80, 0x1a89);
    (0x1a90, 0x1a99); (0x1b50, 0x1b59); (0x1bb0, 0x1bb9); (0x1c40, 0x1c49);
    (0x1c50, 0x1c59); (0xa620, 0xa629); (0xa8d0, 0xa8d9); (0xa900, 0xa909);
    (0xa9d0, 0xa9d9); (0xa9f0, 0xa9f9); (0xaa50, 0xaa59); (0xabf0, 0xabf9);
    (0xff10, 0xff19); (0x104a0, 0x104a9); (0x10d30, 0x10d39);
    (0x11066, 0x1106f); (0x110f0, 0x110f9); (0x11136, 0x1113f);
    (0x111d0, 0x111d9); (0x112f0, 0x112f9); (0x11450, 0x11459);
    (0x114d0, 0x114d9); (0x11650, 0x11659); (0x116c0, 0x116c9);
    (0x11730, 0x11739); (0x118e0, 0x118e9); (0x11950, 0x11959);
    (0x11c50, 0x11c59); (0x11d50, 0x11d59); (0x11da0, 0x11da9);
    (0x16a60, 0x16a69); (0x16ac0, 0x16ac9); (0x16b50, 0x16b59);
    (0x1d7ce, 0x1d7ff); (0x1e140, 0x1e149); (0x1e2f0, 0x1e2f9);
    (0x1e950, 0x1e959); (0x1fbf0, 0x1fbf9) ]%N.

(** The code points whose Numeric_Type is Digit without being decimal
    (superscripts, subscripts, circled digits and the like). *)
Definition digit_only_ranges : list (N * N) :=
  [ (0xb2, 0xb3); (0xb9, 0xb9); (0x1369, 0x1371); (0x19da, 0x19da);
    (0x2070, 0x2070); (0x2074, 0x2079); (0x2080, 0x2089); (0x2460, 0x2468);
    (0x2474, 0x247c); (0x2488, 0x2490); (0x24ea, 0x24ea); (0x24f5, 0x24fd);
    (0x24ff, 0x24ff); (0x2776, 0x277e); (0x2780, 0x2788); (0x278a, 0x2792);
    (0x10a40, 0x10a43); (0x10e60, 0x10e68); (0x11052, 0x1105a);
    (0x1f100, 0x1f10a) ]%N.

(** [ch.isdecimal()], which is also what [\d] matches in a [str] pattern. *)
Definition char_isdecimal (c : char) : bool := in_ranges decimal_ranges c.

(** [ch.isdigit()]: Numeric_Type Digit or Decimal. *)
Definition char_isdigit (c : char) : bool :=
  char_isdecimal c || in_ranges digit_only_ranges c.

(** [s.isdigit()]: every character is a digit and there is at least one. *)
Definition isdigit (s : str) : bool :=
  match s with
  | [] => false
  | _ => forallb char_isdigit s
  end.

(** The value of a decimal digit, [None] for any other code point. *)
Definition decimal_value (c : char) : option Z :=
  match find (fun r => (fst r <=? c)%N && (c <=? snd r)%N) decimal_ranges with
  | Some r => Some (Z.of_N ((c - fst r) mod 10))
  | None => None
  end.

(** ** Exceptions *)

Inductive exception : Type :=
  | ValueError (msg : str)
  | OverflowError (msg : str).

(** The outcome of a call: a value, or a raised exception. *)
Inductive outcome (A : Type) : Type :=
  | Ok (a : A)
  | Raise (e : exception).
Arguments Ok {A} a.
Arguments Raise {A} e.

Definition bind {A B : Type} (r : outcome A) (k : A -> outcome B) : outcome B :=
  match r with
  | Ok a => k a
  | Raise e => Raise e
  end.

Notation "x <- c ;; k" := (bind c (fun x => k))
  (at level 61, c at next level, right associativity).

Definition is_ok {A : Type} (r : outcome A) : bool :=
  match r with Ok _ => true | Raise _ => false end.

(** ** Fields *)

(** [class Field]: an object with one attribute, [value]. *)
Record Field : Type := mkField { value : str }.

Definition Name := Field.
Definition Phone := Field.
Definition Birthday := Field.

Definition Name_init (v : str) : outcome Name := Ok (mkField v).

(** [Phone.__init__] *)
Definition Phone_init (v : str) : outcome Phone :=
  if negb (isdigit v) || negb (len v =? 10) then
    Raise (ValueError (py "Phone must be a 10-digit string"))
  else Ok (mkField v).

(** ** The [datetime] module

    The calendar arithmetic follows CPython's reference implementation
    ([Lib/datetime.py]); the texts of the exceptions are those of the C
    implementation. *)

Definition MINYEAR : Z := 1.
Definition MAXYEAR : Z := 9999.
Definition _MAXORDINAL : Z := 3652059.

Definition _DAYS_IN_MONTH : list Z :=
  [-1; 31; 28; 31; 30; 31; 30; 31; 31; 30; 31; 30; 31].

Definition _DAYS_BEFORE_MONTH : list Z :=
  [-1; 0; 31; 59; 90; 120; 151; 181; 212; 243; 273; 304; 334].

(** [table[i]] for an index that is in range. *)
Definition item (table : list Z) (i : Z) : Z := nth (Z.to_nat i) table 0.

Definition _is_leap (year : Z) : bool :=
  (year mod 4 =? 0) && (negb (year mod 100 =? 0) || (year mod 400 =? 0)).

Definition _days_before_year (year : Z) : Z :=
  let y := year - 1 in
  y * 365 + y / 4 - y / 100 + y / 400.

Definition _days_in_month (year month : Z) : Z :=
  if (month =? 2) && _is_leap year then 29 else item _DAYS_IN_MONTH month.

Definition _days_before_month (year month : Z) : Z :=
  item _DAYS_BEFORE_MONTH month
  + (if (month >? 2) && _is_leap year then 1 else 0).

Definition _ymd2ord (year month day : Z) : Z :=
  _days_before_year year + _days_before_month year month + day.

Definition _DI400Y : Z := 146097.
Definition _DI100Y : Z := 36524.
Definition _DI4Y : Z := 1461.

Definition _ord2ymd (n : Z) : Z * Z * Z :=
  let n := n - 1 in
  let n400 := n / _DI400Y in
  let n := n mod _DI400Y in
  let year := n400 * 400 + 1 in
  let n100 := n / _DI100Y in
  let n := n mod _DI100Y in
  let n4 := n / _DI4Y in
  let n := n mod _DI4Y in
  let n1 := n / 365 in
  let n := n mod 365 in
  let year := year + (n100 * 100 + n4 * 4 + n1) in
  if (n1 =? 4) || (n100 =? 4) then (year - 1, 12, 31)
  else
    let leapyear := (n1 =? 3) && (negb (n4 =? 24) || (n100 =? 3)) in
    let month := Z.shiftr (n + 50) 5 in
    let preceding :=
      item _DAYS_BEFORE_MONTH month
      + (if (month >? 2) && leapyear then 1 else 0) in
    if preceding >? n then
      let month := month - 1 in
      let preceding :=
        preceding
        - (item _DAYS_IN_MONTH month
           + (if (month =? 2) && leapyear then 1 else 0)) in
      (year, month, n - preceding + 1)
    else (year, month, n - preceding + 1).

(** A [datetime.date] object. *)
Record date : Type := mkdate { year : Z; month : Z; day : Z }.

(** A [datetime.timedelta]; the program only builds whole days. *)
Record timedelta : Type := mktimedelta { days : Z }.

(** Decimal text of a natural number, as [%d] prints it. *)
Fixpoint decimal_digits (fuel : nat) (n : Z) (acc : str) : str :=
  match fuel with
  | O => acc
  | S fuel' =>
      let acc' := Z.to_N (48 + n mod 10) :: acc in
      if n / 10 =? 0 then acc' else decimal_digits fuel' (n / 10) acc'
  end.

Definition str_of_int (n : Z) : str :=
  if n <? 0 then py "-" ++ decimal_digits (S (Z.to_nat (Z.log2 (- n)))) (- n) []
  else decimal_digits (S (Z.to_nat (Z.log2 n))) n [].

(** [datetime.date(year, month, day)] *)
Definition date_new (y m d : Z) : outcome date :=
  if negb ((MINYEAR <=? y) && (y <=? MAXYEAR)) then
    Raise (ValueError (py "year " ++ str_of_int y ++ py " is out of range"))
  else if negb ((1 <=? m) && (m <=? 12)) then
    Raise (ValueError (py "month must be in 1..12"))
  else if negb ((1 <=? d) && (d <=? _days_in_month y m)) then
    Raise (ValueError (py "day is out of range for month"))
  else Ok (mkdate y m d).

Definition toordinal (self : date) : Z :=
  _ymd2ord (year self) (month self) (day self).

Definition fromordinal (n : Z) : outcome date :=
  let '(y, m, d) := _ord2ymd n in date_new y m d.

(** [self + other] for a date and a timedelta *)
Definition date_add (self : date) (other : timedelta) : outcome date :=
  let o := toordinal self + days other in
  if (0 <? o) && (o <=? _MAXORDINAL) then fromordinal o
  else Raise (OverflowError (py "date value out of range")).

(** [self.weekday()]: Monday is 0, Sunday is 6. *)
Definition weekday (self : date) : Z := (toordinal self + 6) mod 7.

(** Comparison of dates, that of the tuples [(year, month, day)]. *)
Definition date_lt (a b : date) : bool :=
  (year a <? year b)
  || ((year a =? year b)
      && ((month a <? month b)
          || ((month a =? month b) && (day a <? day b)))).

Definition date_le (a b : date) : bool := negb (date_lt b a).

(** [self.strftime("%d.%m.%Y")]: day and month on two digits, the year on
    four.  (For a year below 1000 the C library of some platforms prints
    [%Y] without padding; from 1000 on every platform prints this.) *)
Definition digit_char (n : Z) : char := Z.to_N (48 + n mod 10).

Definition strftime_dmY (self : date) : str :=
  [digit_char (day self / 10); digit_char (day self)]
  ++ py "."
  ++ [digit_char (month self / 10); digit_char (month self)]
  ++ py "."
  ++ [digit_char (year self / 1000); digit_char (year self / 100);
      digit_char (year self / 10); digit_char (year self)].

(** *** [datetime.datetime.strptime(data, "%d.%m.%Y")]

    [_strptime] turns the format into the pattern
    [(?P<d>3[0-1]|[1-2]\d|0[1-9]|[1-9]| [1-9])\.(?P<m>1[0-2]|0[1-9]|[1-9])\.(?P<Y>\d\d\d\d)],
    matches it at the start of the data, and refuses data that goes on after
    the match.  A pattern is modelled by the list of its matches at the
    start of a text, in the order a backtracking matcher tries them: each
    with the text matched and the text left. *)

Definition chr (a : ascii) : char := N_of_ascii a.

Definition pattern := str -> list (str * str).

Definition one (p : char -> bool) : pattern := fun s =>
  match s with
  | c :: s' => if p c then [([c], s')] else []
  | [] => []
  end.

Definition lit (a : ascii) : pattern := one (char_eqb (chr a)).

Definition range (lo hi : ascii) : pattern :=
  one (fun c => (chr lo <=? c)%N && (c <=? chr hi)%N).

Definition digit : pattern := one char_isdecimal.

Definition seq (p q : pattern) : pattern := fun s =>
  flat_map (fun '(a, s1) => map (fun '(b, s2) => (a ++ b, s2)) (q s1)) (p s).

Definition alt (p q : pattern) : pattern := fun s => p s ++ q s.

Definition re_d : pattern :=
  alt (seq (lit "3") (range "0" "1"))
 (alt (seq (range "1" "2") digit)
 (alt (seq (lit "0") (range "1" "9"))
 (alt (range "1" "9")
      (seq (lit " ") (range "1" "9"))))).

Definition re_m : pattern :=
  alt (seq (lit "1") (range "0" "2"))
 (alt (seq (lit "0") (range "1" "9"))
      (range "1" "9")).

Definition re_Y : pattern := seq digit (seq digit (seq digit digit)).

(** The matches of the whole pattern at the start of a text, in the order
    they are tried: each with the groups [d], [m], [Y] and the text after
    the match. *)
Definition matches_dmY (data : str) : list (str * str * str * str) :=
  flat_map (fun '(d, s1) =>
  flat_map (fun '(_, s2) =>
  flat_map (fun '(m, s3) =>
  flat_map (fun '(_, s4) =>
  map (fun '(y, s5) => (d, m, y, s5)) (re_Y s4))
    (lit "." s3)) (re_m s2)) (lit "." s1)) (re_d data).

(** [format_regex.match(data_string)]: the first match. *)
Definition match_dmY (data : str) : option (str * str * str * str) :=
  hd_error (matches_dmY data).

(** White space in the sense of [str.isspace]. *)
Definition char_isspace (c : char) : bool :=
  in_ranges [ (0x09, 0x0d); (0x1c, 0x20); (0x85, 0x85); (0xa0, 0xa0);
              (0x1680, 0x1680); (0x2000, 0x200a); (0x2028, 0x2029);
              (0x202f, 0x202f); (0x205f, 0x205f); (0x3000, 0x3000) ]%N c.

Fixpoint lstrip (s : str) : str :=
  match s with
  | c :: s' => if char_isspace c then lstrip s' else s
  | [] => []
  end.

Fixpoint int_digits (acc : Z) (s : str) : option Z :=
  match s with
  | [] => Some acc
  | c :: s' =>
      match decimal_value c with
      | Some v => int_digits (10 * acc + v) s'
      | None => None
      end
  end.

(** [int(s)] for the text of a matched group: a run of decimal digits,
    possibly after white space.  (The signs, underscores and trailing white
    space that [int] also accepts never occur in a group.) *)
Definition int (s : str) : outcome Z :=
  match lstrip s with
  | [] => Raise (ValueError (py "invalid literal for int() with base 10"))
  | t =>
      match int_digits 0 t with
      | Some n => Ok n
      | None => Raise (ValueError (py "invalid literal for int() with base 10"))
      end
  end.

(** [datetime.datetime.strptime(data, "%d.%m.%Y").date()].  The texts of the
    two errors of [_strptime] are kept without the data they quote. *)
Definition strptime_dmY (data : str) : outcome date :=
  match match_dmY data with
  | None => Raise (ValueError (py "time data does not match format"))
  | Some (d, m, y, rest) =>
      if negb (len rest =? 0) then
        Raise (ValueError (py "unconverted data remains"))
      else
        d' <- int d ;;
        m' <- int m ;;
        y' <- int y ;;
        date_new y' m' d'
  end.

(** [Birthday.__init__] *)
Definition Birthday_init (v : str) : outcome Birthday :=
  match strptime_dmY v with
  | Ok _ => Ok (mkField v)
  | Raise _ => Raise (ValueError (py "Invalid date format. Use DD.MM.YYYY"))
  end.

(** ** Record

    [class Record] (a reserved word here, hence [Contact]).  A method runs
    on the object and may change it in place before it returns or raises:
    it is a function from the object to an outcome and the object as the
    call leaves it. *)

Record Contact : Type :=
  mkContact { name : Name; phones : list Phone; birthday : option Birthday }.

Definition method (A : Type) : Type := Contact -> outcome A * Contact.

Definition ret {A : Type} (a : A) : method A := fun self => (Ok a, self).

Definition throw {A : Type} (e : exception) : method A :=
  fun self => (Raise e, self).

Definition mbind {A B : Type} (c : method A) (k : A -> method B) : method B :=
  fun self =>
    match c self with
    | (Ok a, self') => k a self'
    | (Raise e, self') => (Raise e, self')
    end.

Notation "c >> k" := (mbind c (fun _ => k))
  (at level 62, right associativity).

(** A call that cannot touch the object. *)
Definition pure_call {A : Type} (r : outcome A) : method A :=
  fun self => (r, self).

Definition set_phones (l : list Phone) : method unit :=
  fun self => (Ok tt, mkContact (name self) l (birthday self)).

Definition set_birthday (b : Birthday) : method unit :=
  fun self => (Ok tt, mkContact (name self) (phones self) (Some b)).

(** [Record.__init__] *)
Definition Record_init (name : str) : outcome Contact :=
  n <- Name_init name ;;
  Ok (mkContact n [] None).

(** [ph.value == phone_str] *)
Definition has_value (phone_str : str) (ph : Phone) : bool :=
  str_eqb (value ph) phone_str.

(** [Record.find_phone] *)
Definition find_phone (phone_str : str) (self : Contact) : option Phone :=
  find (has_value phone_str) (phones self).

(** [l.remove(x)]: the list without its first item equal to [x], [None]
    when there is none.  [Phone] defines no [__eq__], so the items compare
    by identity; the only call passes the object [find_phone] returned,
    which is the first one of the list with that value. *)
Fixpoint list_remove (x : Phone) (l : list Phone) : option (list Phone) :=
  match l with
  | [] => None
  | y :: l' =>
      if str_eqb (value y) (value x) then Some l'
      else option_map (cons y) (list_remove x l')
  end.

(** [Record.add_phone] *)
Definition add_phone (new_phone : str) : method unit := fun self =>
  match find_phone new_phone self with
  | Some _ =>
      throw (ValueError (py "Phone number " ++ new_phone
                         ++ py " already exists for " ++ value (name self)))
            self
  | None =>
      mbind (pure_call (Phone_init new_phone))
            (fun phone => set_phones (phones self ++ [phone])) self
  end.

(** [Record.remove_phone] *)
Definition remove_phone (rem_phone : str) : method unit := fun self =>
  match find_phone rem_phone self with
  | Some phone_obj =>
      match list_remove phone_obj (phones self) with
      | Some l => set_phones l self
      | None => throw (ValueError (py "list.remove(x): x not in list")) self
      end
  | None =>
      throw (ValueError (py "Phone number " ++ rem_phone ++ py " not found"))
            self
  end.

(** [Record.edit_phone] *)
Definition edit_phone (old new : str) : method unit := fun self =>
  match find_phone old self with
  | None =>
      throw (ValueError (py "Phone number " ++ old ++ py " not found")) self
  | Some _ => (add_phone new >> remove_phone old) self
  end.

(** [Record.add_birthday] *)
Definition add_birthday (bday_value : str) : method unit := fun self =>
  match birthday self with
  | Some _ =>
      throw (ValueError (py "Birthday already set for this contact")) self
  | None =>
      mbind (pure_call (Birthday_init bday_value)) set_birthday self
  end.

(** ** AddressBook

    [class AddressBook(UserDict)]: [data] is a [dict], which keeps its keys
    in the order of their first insertion. *)

Record AddressBook : Type := mkAddressBook { data : list (str * Contact) }.

Fixpoint dict_set (key : str) (v : Contact) (d : list (str * Contact))
  : list (str * Contact) :=
  match d with
  | [] => [(key, v)]
  | (k, w) :: d' =>
      if str_eqb k key then (k, v) :: d' else (k, w) :: dict_set key v d'
  end.

Definition dict_get (key : str) (d : list (str * Contact)) : option Contact :=
  option_map snd (find (fun kv => str_eqb (fst kv) key) d).

Definition dict_pop (key : str) (d : list (str * Contact))
  : list (str * Contact) :=
  filter (fun kv => negb (str_eqb (fst kv) key)) d.

Definition values (d : list (str * Contact)) : list Contact := map snd d.

(** [AddressBook.add_record] *)
Definition add_record (record : Contact) (self : AddressBook) : AddressBook :=
  mkAddressBook (dict_set (value (name record)) record (data self)).

(** [AddressBook.find] *)
Definition find_record (name_str : str) (self : AddressBook) : option Contact :=
  dict_get name_str (data self).

(** [AddressBook.delete] *)
Definition delete (name_str : str) (self : AddressBook) : AddressBook :=
  mkAddressBook (dict_pop name_str (data self)).

(** What a run can observe of the system clock: the local calendar date that
    [datetime.date.today()] returns, and the local time of day in seconds,
    which the program never reads. *)
Record Clock : Type := mkClock { clock_date : date; clock_seconds : Z }.

Definition date_today (clock : Clock) : date := clock_date clock.

(** An item of the list [get_upcoming_birthdays] returns:
    [{"name": ..., "birthday": ...}]. *)
Record Upcoming : Type := mkUpcoming { up_name : str; up_birthday : str }.

(** The body of the loop of [get_upcoming_birthdays] for one record: the
    list [result] as the iteration leaves it. *)
Definition upcoming_step (today end_date : date) (result : list Upcoming)
    (rec : Contact) : outcome (list Upcoming) :=
  match birthday rec with
  | None => Ok result
  | Some b =>
      let bday_str := value b in
      bday_dt <- strptime_dmY bday_str ;;
      let year := year today in
      match date_new year (month bday_dt) (day bday_dt) with
      | Raise (ValueError _) => Ok result
      | Raise e => Raise e
      | Ok candidate =>
          candidate <-
            (if date_lt candidate today
             then date_new (year + 1) (month bday_dt) (day bday_dt)
             else Ok candidate) ;;
          let weekday := weekday candidate in
          shifted <-
            (if weekday =? 5 then date_add candidate (mktimedelta 2)
             else if weekday =? 6 then date_add candidate (mktimedelta 1)
             else Ok candidate) ;;
          if date_le today shifted && date_le shifted end_date then
            Ok (result ++ [mkUpcoming (value (name rec)) (strftime_dmY shifted)])
          else Ok result
      end
  end.

Fixpoint upcoming_loop (today end_date : date) (result : list Upcoming)
    (recs : list Contact) : outcome (list Upcoming) :=
  match recs with
  | [] => Ok result
  | rec :: recs' =>
      result' <- upcoming_step today end_date result rec ;;
      upcoming_loop today end_date result' recs'
  end.

(** [AddressBook.get_upcoming_birthdays]; the clock stands for the call
    [datetime.date.today()] in its first line. *)
Definition get_upcoming_birthdays (clock : Clock) (self : AddressBook)
  : outcome (list Upcoming) :=
  let today := date_today clock in
  end_date <- date_add today (mktimedelta 6) ;;
  upcoming_loop today end_date [] (values (data self)).

(** ** The vocabulary of the specification *)

(** The error kinds of the specification are, in the program, [ValueError]s
    told apart by their texts. *)
Definition InvalidPhoneFormat : exception :=
  ValueError (py "Phone must be a 10-digit string").

Definition InvalidDateFormat : exception :=
  ValueError (py "Invalid date format. Use DD.MM.YYYY").

Definition DuplicatePhone (phone owner : str) : exception :=
  ValueError (py "Phone number " ++ phone ++ py " already exists for " ++ owner).

Definition PhoneNotFound (phone : str) : exception :=
  ValueError (py "Phone number " ++ phone ++ py " not found").

Definition BirthdayAlreadySet : exception :=
  ValueError (py "Birthday already set for this contact").

(** A phone string is stored in a record. *)
Definition stored (p : str) (self : Contact) : Prop :=
  In p (map value (phones self)).

(** The records the program can build: made by [Record(name)], then changed
    only by calls of the methods, whether they return or raise. *)
Inductive reachable : Contact -> Prop :=
  | reach_init (n : str) (r : Contact) :
      Record_init n = Ok r -> reachable r
  | reach_add_phone (p : str) (r : Contact) :
      reachable r -> reachable (snd (add_phone p r))
  | reach_remove_phone (p : str) (r : Contact) :
      reachable r -> reachable (snd (remove_phone p r))
  | reach_edit_phone (old new : str) (r : Contact) :
      reachable r -> reachable (snd (edit_phone old new r))
  | reach_add_birthday (b : str) (r : Contact) :
      reachable r -> reachable (snd (add_birthday b r)).

(** What holds of every such record: no phone string twice, every phone
    and the birthday as their classes accept them. *)
Definition well_formed (self : Contact) : Prop :=
  NoDup (map value (phones self))
  /\ Forall (fun ph => Phone_init (value ph) = Ok ph) (phones self)
  /\ (forall b, birthday self = Some b -> Birthday_init (value b) = Ok b).

(** The phones of a record without the first one of value [v]. *)
Fixpoint without (v : str) (l : list Phone) : list Phone :=
  match l with
  | [] => []
  | y :: l' => if str_eqb (value y) v then l' else y :: without v l'
  end.

(** The regular expression [^[0-9]{10}$] of the specification: exactly ten
    ASCII decimal digits. *)
Definition ascii_digit (c : char) : bool := (48 <=? c)%N && (c <=? 57)%N.

Definition ten_ascii_digits (raw : str) : bool :=
  (len raw =? 10) && forallb ascii_digit raw.

(** The exact format [DD.MM.YYYY] of the specification: two digits, a dot,
    two digits, a dot, four digits. *)
Definition exact_DDMMYYYY (raw : str) : bool :=
  match raw with
  | [d1; d2; p1; m1; m2; p2; y1; y2; y3; y4] =>
      forallb ascii_digit [d1; d2; m1; m2; y1; y2; y3; y4]
      && char_eqb p1 (chr ".") && char_eqb p2 (chr ".")
  | _ => false
  end.

(** A real calendar date of the years 1 to 9999. *)
Definition valid_date (d : date) : Prop :=
  MINYEAR <= year d <= MAXYEAR /\ 1 <= month d <= 12
  /\ 1 <= day d <= _days_in_month (year d) (month d).

(** The last step of [_ord2ymd]: the month and the day of the month of day
    [n] of a year, counted from 0. *)
Definition month_day (leapyear : bool) (n : Z) : Z * Z :=
  let month := Z.shiftr (n + 50) 5 in
  let preceding :=
    item _DAYS_BEFORE_MONTH month
    + (if (month >? 2) && leapyear then 1 else 0) in
  if preceding >? n then
    let month := month - 1 in
    let preceding :=
      preceding
      - (item _DAYS_IN_MONTH month
         + (if (month =? 2) && leapyear then 1 else 0)) in
    (month, n - preceding + 1)
  else (month, n - preceding + 1).

(** The length of a month and the days before it, by the kind of year. *)
Definition leap_days (leapyear : bool) (m : Z) : Z :=
  if (m =? 2) && leapyear then 29 else item _DAYS_IN_MONTH m.

Definition leap_before (leapyear : bool) (m : Z) : Z :=
  item _DAYS_BEFORE_MONTH m + (if (m >? 2) && leapyear then 1 else 0).

(** The day and the month make a date, in whatever year. *)
Definition day_in_month (d : date) : Prop :=
  1 <= month d <= 12 /\ 1 <= day d <= _days_in_month (year d) (month d).

(** The three fields [strptime] accepts for ["%d.%m.%Y"], as texts. *)
Definition in_range (lo hi : ascii) (c : char) : bool :=
  (chr lo <=? c)%N && (c <=? chr hi)%N.

Definition day_text (d : str) : bool :=
  match d with
  | [c] => in_range "1" "9" c
  | [c1; c2] =>
      (char_eqb (chr "3") c1 && in_range "0" "1" c2)
      || (in_range "1" "2" c1 && char_isdecimal c2)
      || (char_eqb (chr "0") c1 && in_range "1" "9" c2)
      || (char_eqb (chr " ") c1 && in_range "1" "9" c2)
  | _ => false
  end.

Definition month_text (m : str) : bool :=
  match m with
  | [c] => in_range "1" "9" c
  | [c1; c2] =>
      (char_eqb (chr "1") c1 && in_range "0" "2" c2)
      || (char_eqb (chr "0") c1 && in_range "1" "9" c2)
  | _ => false
  end.

Definition year_text (y : str) : bool :=
  (len y =? 4) && forallb char_isdecimal y.

(** The number a field denotes: its decimal digits read in base ten, a
    leading blank counting for nothing. *)
Definition digit_step (acc : Z) (c : char) : Z :=
  match decimal_value c with
  | Some v => 10 * acc + v
  | None => acc
  end.

Definition number_of (s : str) : Z := fold_left digit_step s 0.

(** A pattern [p] matches the texts of [L]: its matches at the start of a
    text are the ways to cut a text of [L] off it. *)
Definition denotes (p : pattern) (L : str -> Prop) : Prop :=
  forall s a r, In (a, r) (p s) <-> s = a ++ r /\ L a.

(** No code point is in a range of both tables. *)
Definition ranges_apart (t1 t2 : list (N * N)) : bool :=
  forallb (fun r1 =>
    forallb (fun r2 => (snd r1 <? fst r2)%N || (snd r2 <? fst r1)%N) t2) t1.

(** *** The upcoming birthdays, following the specification

    Dates are counted in days, 01.01.0001 being day 1. *)

(** The month and day make a calendar date of the year. *)
Definition spec_is_date (y m d : Z) : bool :=
  (MINYEAR <=? y) && (y <=? MAXYEAR) && (1 <=? m) && (m <=? 12)
  && (1 <=? d) && (d <=? _days_in_month y m).

(** The month and day make a date in today's year and, when that date is
    before today, in the next year too: the resulting calendar date is
    valid. *)
Definition spec_resulting_date_valid (today : date) (m d : Z) : bool :=
  spec_is_date (year today) m d
  && (if _ymd2ord (year today) m d <? toordinal today
      then spec_is_date (year today + 1) m d
      else true).

(** The month and day in today's year, next year if that is before today. *)
Definition spec_candidate (today : date) (m d : Z) : Z :=
  if _ymd2ord (year today) m d <? toordinal today
  then _ymd2ord (year today + 1) m d
  else _ymd2ord (year today) m d.

(** Saturdays move forward two days, Sundays one day. *)
Definition spec_shift (n : Z) : Z :=
  if (n + 6) mod 7 =? 5 then n + 2
  else if (n + 6) mod 7 =? 6 then n + 1
  else n.

(** The text of the date of day [n]. *)
Definition spec_text (n : Z) : str :=
  let '(y, m, d) := _ord2ymd n in strftime_dmY (mkdate y m d).

(** What a record contributes to the list: nothing, or one item.  A record
    without a birthday, or whose month and day make no valid date in the
    year they are reinterpreted in, is passed over. *)
Definition spec_upcoming (today : date) (rec : Contact) : list Upcoming :=
  match birthday rec with
  | None => []
  | Some b =>
      match strptime_dmY (value b) with
      | Raise _ => []
      | Ok bday =>
          if spec_resulting_date_valid today (month bday) (day bday) then
            let shifted :=
              spec_shift (spec_candidate today (month bday) (day bday)) in
            if (toordinal today <=? shifted) && (shifted <=? toordinal today + 6)
            then [mkUpcoming (value (name rec)) (spec_text shifted)]
            else []
          else []
      end
  end.

(** The records on which lines 119 and 128 raise nothing: the birthday is a
    text [strptime] reads, and when its month and day make a date of today's
    year that is before today, they make a date of the next year as well. *)
Definition rollover_safe (today : date) (rec : Contact) : bool :=
  match birthday rec with
  | None => true
  | Some b =>
      match strptime_dmY (value b) with
      | Raise _ => false
      | Ok bday =>
          match date_new (year today) (month bday) (day bday) with
          | Raise _ => true
          | Ok candidate =>
              if date_lt candidate today
              then is_ok (date_new (year today + 1) (month bday) (day bday))
              else true
          end
      end
  end.

(** All the values from [lo] up, [n] of them. *)
Fixpoint Zseq (lo : Z) (n : nat) : list Z :=
  match n with
  | O => []
  | S n' => lo :: Zseq (lo + 1) n'
  end.

(** ** The command layer

    [parse_input], the decorator [input_error] and the command handlers.
    A handler may raise two more kinds of exception than the classes above
    do. *)

Inductive raised : Type :=
  | Builtin (e : exception)
  | KeyError
  | IndexError (msg : str).

(** The outcome of a call in the command layer. *)
Inductive reply (A : Type) : Type :=
  | Return (a : A)
  | Raised (e : raised).
Arguments Return {A} a.
Arguments Raised {A} e.

Definition of_outcome {A : Type} (r : outcome A) : reply A :=
  match r with
  | Ok a => Return a
  | Raise e => Raised (Builtin e)
  end.

(** [s.rstrip()] and [s.strip()] *)
Definition rstrip (s : str) : str := rev (lstrip (rev s)).

Definition strip (s : str) : str := rstrip (lstrip s).

(** [s.split()]: the runs of characters that are not white space; [word]
    is the run being read. *)
Fixpoint split_from (word : str) (s : str) : list str :=
  match s with
  | [] => match word with [] => [] | _ => [word] end
  | c :: s' =>
      if char_isspace c then
        match word with
        | [] => split_from [] s'
        | _ => word :: split_from [] s'
        end
      else split_from (word ++ [c]) s'
  end.

Definition split (s : str) : list str := split_from [] s.

(** [sep.join(items)] *)
Fixpoint join (sep : str) (items : list str) : str :=
  match items with
  | [] => []
  | x :: rest =>
      match rest with
      | [] => x
      | _ => x ++ sep ++ join sep rest
      end
  end.

(** The truth value of a string or a list: it is not empty. *)
Definition truthy {A : Type} (l : list A) : bool :=
  match l with
  | [] => false
  | _ => true
  end.

(** [parse_input].  [lower] stands for [str.lower], whose tables are not
    modelled. *)
Definition parse_input (lower : str -> str) (user_input : str)
  : reply (str * list str) :=
  let parts := split (strip user_input) in
  match parts with
  | [] => Raised (IndexError (py "list index out of range"))
  | first :: args => Return (lower first, args)
  end.

(** A handler runs on the address book and may change the records it holds
    before it returns or raises. *)
Definition command (A : Type) : Type := AddressBook -> reply A * AddressBook.

(** [input_error(func)]: the three [except] clauses, in their order. *)
Definition input_error (func : command str) : command str := fun book =>
  match func book with
  | (Raised (Builtin (ValueError _)), book') =>
      (Return (py "Enter the argument for the command"), book')
  | (Raised KeyError, book') => (Return (py "Contact not found."), book')
  | (Raised (IndexError _), book') =>
      (Return (py "Enter the argument for the command"), book')
  | other => other
  end.

(** [a, b = args] and [a, b, c = args] *)
Definition unpack2 (args : list str) : reply (str * str) :=
  match args with
  | [a; b] => Return (a, b)
  | [] | [_] =>
      Raised (Builtin (ValueError
        (py "not enough values to unpack (expected 2, got "
         ++ str_of_int (len args) ++ py ")")))
  | _ => Raised (Builtin (ValueError (py "too many values to unpack (expected 2)")))
  end.

Definition unpack3 (args : list str) : reply (str * str * str) :=
  match args with
  | [a; b; c] => Return (a, b, c)
  | [] | [_] | [_; _] =>
      Raised (Builtin (ValueError
        (py "not enough values to unpack (expected 3, got "
         ++ str_of_int (len args) ++ py ")")))
  | _ => Raised (Builtin (ValueError (py "too many values to unpack (expected 3)")))
  end.

(** [args[0]] *)
Definition first_arg (args : list str) : reply str :=
  match args with
  | a :: _ => Return a
  | [] => Raised (IndexError (py "list index out of range"))
  end.

(** A method called on the record [book.find(name_str)] returned.  The
    book holds that very object under the key [name_str], and under no other
    key (a record is stored under its own name only): what the call does to
    the object shows in the book at that key. *)
Definition on_record {A : Type} (name_str : str) (rec : Contact)
    (m : method A) : command A := fun book =>
  let '(r, rec') := m rec in
  (of_outcome r, mkAddressBook (dict_set name_str rec' (data book))).

(** [', '.join(p.value for p in rec.phones) if rec.phones else none] *)
Definition phones_text (sep none : str) (rec : Contact) : str :=
  if truthy (phones rec) then join sep (map value (phones rec)) else none.

Module Commands.

(** The body of [add_contact], under its decorator. *)
Definition add_contact_body (args : list str) : command str := fun book =>
  match unpack2 args with
  | Raised e => (Raised e, book)
  | Return (name, phone) =>
      match find_record name book with
      | None =>
          match Record_init name with
          | Raise e => (Raised (Builtin e), book)
          | Ok rec =>
              let '(r, rec') :=
                if truthy phone then add_phone phone rec else (Ok tt, rec) in
              match r with
              | Raise e => (Raised (Builtin e), book)
              | Ok _ => (Return (py "Contact added."), add_record rec' book)
              end
          end
      | Some rec =>
          if truthy phone then
            match on_record name rec (add_phone phone) book with
            | (Raised e, book') => (Raised e, book')
            | (Return _, book') =>
                (Return (py "Phone added to existing contact."), book')
            end
          else (Return (py "Contact already exists."), book)
      end
  end.

Definition add_contact (args : list str) : command str :=
  input_error (add_contact_body args).

Definition change_contact_body (args : list str) : command str := fun book =>
  match unpack3 args with
  | Raised e => (Raised e, book)
  | Return (name, old_phone, new_phone) =>
      match find_record name book with
      | None => (Raised KeyError, book)
      | Some rec =>
          match on_record name rec (edit_phone old_phone new_phone) book with
          | (Raised e, book') => (Raised e, book')
          | (Return _, book') => (Return (py "Phone updated."), book')
          end
      end
  end.

Definition change_contact (args : list str) : command str :=
  input_error (change_contact_body args).

Definition show_phone_body (args : list str) : command str := fun book =>
  match first_arg args with
  | Raised e => (Raised e, book)
  | Return name =>
      match find_record name book with
      | None => (Raised KeyError, book)
      | Some rec =>
          (Return (py "Contact for " ++ name ++ py ": "
                   ++ phones_text (py ", ") (py "No phones") rec), book)
      end
  end.

Definition show_phone (args : list str) : command str :=
  input_error (show_phone_body args).

(** [show_all], which has no decorator and changes nothing. *)
Definition show_all (book : AddressBook) : str :=
  if truthy (data book) then
    join [10%N]
      (map (fun '(name, rec) =>
              name ++ py ": " ++ phones_text (py ", ") (py "no phones") rec
              ++ py "; birthday: "
              ++ match birthday rec with
                 | Some b => value b
                 | None => py "no birthday"
                 end)
           (data book))
  else py "No contacts found.".

Definition add_birthday_body (args : list str) : command str := fun book =>
  match unpack2 args with
  | Raised e => (Raised e, book)
  | Return (name, bday) =>
      match find_record name book with
      | None => (Raised KeyError, book)
      | Some rec =>
          match on_record name rec (add_birthday bday) book with
          | (Raised e, book') => (Raised e, book')
          | (Return _, book') => (Return (py "Birthday added."), book')
          end
      end
  end.

Definition add_birthday (args : list str) : command str :=
  input_error (add_birthday_body args).

Definition show_birthday_body (args : list str) : command str := fun book =>
  match first_arg args with
  | Raised e => (Raised e, book)
  | Return name =>
      match find_record name book with
      | None => (Raised KeyError, book)
      | Some rec =>
          match birthday rec with
          | Some b => (Return (name ++ py ": " ++ value b), book)
          | None => (Return (py "Birthday for " ++ name ++ py " not set."), book)
          end
      end
  end.

Definition show_birthday (args : list str) : command str :=
  input_error (show_birthday_body args).

Definition birthdays_body (clock : Clock) (args : list str) : command str :=
  fun book =>
    match get_upcoming_birthdays clock book with
    | Raise e => (Raised (Builtin e), book)
    | Ok upcoming =>
        if truthy upcoming then
          (Return (join [10%N]
                     (map (fun d => up_name d ++ py ": " ++ up_birthday d)
                          upcoming)), book)
        else (Return (py "No upcoming birthdays."), book)
    end.

Definition birthdays (clock : Clock) (args : list str) : command str :=
  input_error (birthdays_body clock args).

End Commands.

(** What the command layer keeps true of the address book: no key twice,
    every record under its own name, every record one the program built. *)
Definition book_ok (book : AddressBook) : Prop :=
  NoDup (map fst (data book))
  /\ Forall (fun kv => value (name (snd kv)) = fst kv /\ reachable (snd kv))
            (data book).

(** [main]: the loop that reads the commands. *)

(** How a run of [main] ends: by [break] after [close] or [exit]; by the
    [EOFError] of [input] when there is no line left; by an exception that
    left a handler. *)
Inductive ending : Type :=
  | Closed
  | InputEnded
  | Crashed (e : raised).

(** [print(handler(args, book))], the loop going on. *)
Definition printed (h : command str) : command (str * bool) := fun book =>
  match h book with
  | (Return text, book') => (Return (text, true), book')
  | (Raised e, book') => (Raised e, book')
  end.

(** One turn of the loop of [main] on the line [input] returned: the text
    it prints and whether the loop goes on.  [clock] is the system clock
    during the turn. *)
Definition turn (lower : str -> str) (clock : Clock) (line : str)
  : command (str * bool) := fun book =>
  let user_input := strip line in
  if negb (truthy user_input) then
    (Return (py "Please enter a command.", true), book)
  else
    match parse_input lower user_input with
    | Raised e => (Raised e, book)
    | Return (cmd, args) =>
        if existsb (str_eqb cmd) [py "close"; py "exit"] then
          (Return (py "Good bye!", false), book)
        else if str_eqb cmd (py "hello") then
          (Return (py "How can I help you?", true), book)
        else if str_eqb cmd (py "add") then
          printed (Commands.add_contact args) book
        else if str_eqb cmd (py "change") then
          printed (Commands.change_contact args) book
        else if str_eqb cmd (py "phone") then
          printed (Commands.show_phone args) book
        else if str_eqb cmd (py "all") then
          (Return (Commands.show_all book, true), book)
        else if str_eqb cmd (py "add-birthday") then
          printed (Commands.add_birthday args) book
        else if str_eqb cmd (py "show-birthday") then
          printed (Commands.show_birthday args) book
        else if str_eqb cmd (py "birthdays") then
          printed (Commands.birthdays clock args) book
        else (Return (py "Invalid command.", true), book)
    end.

(** The loop of [main] on the lines the user types, each with the clock at
    that time: the texts printed, the way the run ends, the book at the
    end. *)
Fixpoint main_loop (lower : str -> str) (inputs : list (Clock * str))
    (book : AddressBook) : list str * ending * AddressBook :=
  match inputs with
  | [] => ([], InputEnded, book)
  | (clock, line) :: rest =>
      match turn lower clock line book with
      | (Raised e, book') => ([], Crashed e, book')
      | (Return (text, false), book') => ([text], Closed, book')
      | (Return (text, true), book') =>
          let '(out, e, b) := main_loop lower rest book' in
          (text :: out, e, b)
      end
  end.

(** [main] *)
Definition main (lower : str -> str) (inputs : list (Clock * str))
  : list str * ending * AddressBook :=
  let '(out, e, b) := main_loop lower inputs (mkAddressBook []) in
  (py "Welcome to the assistant bot!" :: out, e, b).

(** ** More vocabulary *)

(** An item the loop adds for a record: the month and day of its birthday
    in a year, not before today, moved off the week-end, in the window. *)
Definition upcoming_item (today : date) (rec : Contact) (u : Upcoming) : Prop :=
  up_name u = value (name rec)
  /\ exists b bday candidate shifted,
       birthday rec = Some b
       /\ strptime_dmY (value b) = Ok bday
       /\ valid_date candidate
       /\ month candidate = month bday /\ day candidate = day bday
       /\ toordinal today <= toordinal candidate
       /\ valid_date shifted
       /\ toordinal shifted = spec_shift (toordinal candidate)
       /\ up_birthday u = strftime_dmY shifted
       /\ toordinal today <= toordinal shifted <= toordinal today + 6.

(** A handler answered: it returned a text. *)
Definition answers (r : reply str * AddressBook) : Prop :=
  exists text, fst r = Return text.

(** A line of white space only. *)
Definition blank (s : str) : bool := forallb char_isspace s.

(** A token: at least one character, none of them white space. *)
Definition token (w : str) : Prop :=
  w <> [] /\ Forall (fun c => char_isspace c = false) w.

(** A clock that gives a real date, six days at least before the end of
    the calendar. *)
Definition good_clock (clock : Clock) : Prop :=
  valid_date (date_today clock)
  /\ toordinal (date_today clock) + 6 <= _MAXORDINAL.

(** * Properties *)

(** ** Strings *)

Lemma str_eqb_eq (a b : str) : str_eqb a b = true <-> a = b.
Proof.
  revert b; induction a as [|x a IH]; intros [|y b]; simpl; try easy.
  unfold char_eqb. rewrite andb_true_iff, N.eqb_eq, IH.
  split; [intros [-> ->]; reflexivity | intros H; inversion H; auto].
Qed.

Lemma str_eqb_refl (a : str) : str_eqb a a = true.
Proof. apply str_eqb_eq; reflexivity. Qed.

Lemma str_eqb_neq (a b : str) : str_eqb a b = false <-> a <> b.
Proof.
  rewrite <- str_eqb_eq. destruct (str_eqb a b); split; congruence.
Qed.

Lemma in_ranges_iff (tbl : list (N * N)) (c : char) :
  in_ranges tbl c = true <->
  exists lo hi, In (lo, hi) tbl /\ (lo <= c <= hi)%N.
Proof.
  unfold in_ranges. rewrite existsb_exists. split.
  - intros [[lo hi] [Hin H]]. simpl in H.
    apply andb_true_iff in H. destruct H as [H1 H2].
    apply N.leb_le in H1, H2. exists lo, hi. auto.
  - intros (lo & hi & Hin & H1 & H2). exists (lo, hi). split; [assumption|].
    simpl. apply andb_true_iff. split; apply N.leb_le; assumption.
Qed.

Lemma ascii_digit_isdecimal (c : char) :
  ascii_digit c = true -> char_isdecimal c = true.
Proof.
  unfold ascii_digit. intros H. apply andb_true_iff in H. destruct H as [H1 H2].
  apply N.leb_le in H1, H2. apply in_ranges_iff.
  exists 0x30%N, 0x39%N. split; [left; reflexivity | lia].
Qed.

Lemma ascii_digit_isdigit (c : char) :
  ascii_digit c = true -> char_isdigit c = true.
Proof.
  intros H. unfold char_isdigit. rewrite (ascii_digit_isdecimal c H). reflexivity.
Qed.

(** ** Phone *)

Lemma Phone_init_eq (raw : str) :
  Phone_init raw =
  if (len raw =? 10) && forallb char_isdigit raw
  then Ok (mkField raw) else Raise InvalidPhoneFormat.
Proof.
  unfold Phone_init, InvalidPhoneFormat, isdigit.
  destruct raw as [|c raw]; [reflexivity|].
  destruct (forallb char_isdigit (c :: raw)), (len (c :: raw) =? 10); reflexivity.
Qed.

(** C3, as amended: [Phone(raw)] succeeds exactly when [raw] has ten
    characters that are all digits in the sense of [str.isdigit] (decimal
    digits and digit characters of any script), which is the case of every
    string of ten ASCII digits; for every other string it raises the
    [InvalidPhoneFormat] error. *)
Theorem Phone_init_spec (raw : str) :
  (Phone_init raw = Ok (mkField raw) <->
   len raw = 10 /\ Forall (fun c => char_isdigit c = true) raw)
  /\ (Phone_init raw = Ok (mkField raw)
      \/ Phone_init raw = Raise InvalidPhoneFormat)
  /\ (ten_ascii_digits raw = true -> Phone_init raw = Ok (mkField raw)).
Proof.
  rewrite Phone_init_eq. split; [split | split].
  - intros H.
    destruct (len raw =? 10) eqn:Hl; [|discriminate].
    destruct (forallb char_isdigit raw) eqn:Hd; [|discriminate].
    split; [apply Z.eqb_eq, Hl | apply Forall_forall, forallb_forall, Hd].
  - intros [Hl Hd]. apply Z.eqb_eq in Hl. rewrite Hl.
    rewrite Forall_forall, <- forallb_forall in Hd. rewrite Hd. reflexivity.
  - destruct ((len raw =? 10) && forallb char_isdigit raw); auto.
  - unfold ten_ascii_digits. intros H. apply andb_true_iff in H.
    destruct H as [Hl Hd]. rewrite Hl.
    assert (Hall : forallb char_isdigit raw = true).
    { apply forallb_forall. intros c Hc. apply ascii_digit_isdigit.
      rewrite forallb_forall in Hd. auto. }
    rewrite Hall. reflexivity.
Qed.

(** C3, as stated, fails: ten ARABIC-INDIC digits (U+0661 to U+0669, then
    U+0660) do not match [^[0-9]{10}$], and [Phone] accepts them. *)
Lemma Phone_init_not_ascii_only :
  Phone_init [0x661; 0x662; 0x663; 0x664; 0x665;
              0x666; 0x667; 0x668; 0x669; 0x660]%N
  = Ok (mkField [0x661; 0x662; 0x663; 0x664; 0x665;
                 0x666; 0x667; 0x668; 0x669; 0x660]%N)
  /\ ten_ascii_digits [0x661; 0x662; 0x663; 0x664; 0x665;
                       0x666; 0x667; 0x668; 0x669; 0x660]%N = false.
Proof. split; vm_compute; reflexivity. Qed.

(** ** Record *)

Section RecordFacts.

Implicit Types (self : Contact) (l : list Phone) (p old new v : str).

Lemma find_value_Some v l x :
  find (has_value v) l = Some x -> value x = v /\ In x l.
Proof.
  intros H. apply find_some in H. destruct H as [Hin Hv].
  apply str_eqb_eq in Hv. auto.
Qed.

Lemma find_value_None v l :
  find (has_value v) l = None <-> ~ In v (map value l).
Proof.
  induction l as [|y l IH]; simpl; [tauto|].
  unfold has_value at 1. destruct (str_eqb (value y) v) eqn:E.
  - apply str_eqb_eq in E. split; [discriminate | intros H; elim H; auto].
  - apply str_eqb_neq in E. rewrite IH. tauto.
Qed.

Lemma find_phone_None p self : find_phone p self = None <-> ~ stored p self.
Proof. apply find_value_None. Qed.

Lemma find_phone_stored p self :
  stored p self -> exists ph, find_phone p self = Some ph /\ value ph = p.
Proof.
  intros H. unfold find_phone.
  destruct (find (has_value p) (phones self)) as [ph|] eqn:E.
  - exists ph. split; [reflexivity | apply (find_value_Some _ _ _ E)].
  - apply find_value_None in E. contradiction.
Qed.

Lemma find_value_app v l l' :
  find (has_value v) (l ++ l') =
  match find (has_value v) l with
  | Some x => Some x
  | None => find (has_value v) l'
  end.
Proof.
  induction l as [|y l IH]; simpl; [reflexivity|].
  destruct (has_value v y); [reflexivity | exact IH].
Qed.

(** Removing the object [find_phone] returned removes the first phone of
    that value. *)
Lemma list_remove_found v l x :
  find (has_value v) l = Some x -> list_remove x l = Some (without v l).
Proof.
  induction l as [|y l IH]; simpl; [discriminate|].
  unfold has_value at 1. destruct (str_eqb (value y) v) eqn:E; intros H.
  - injection H as <-. rewrite str_eqb_refl. reflexivity.
  - pose proof (find_value_Some _ _ _ H) as [Hx _].
    rewrite Hx, E. rewrite (IH H). reflexivity.
Qed.

Lemma without_app_found v l l' :
  In v (map value l) -> without v (l ++ l') = without v l ++ l'.
Proof.
  induction l as [|y l IH]; simpl; [tauto|].
  destruct (str_eqb (value y) v) eqn:E; [reflexivity|].
  apply str_eqb_neq in E. intros [H|H]; [contradiction|].
  rewrite (IH H). reflexivity.
Qed.

Lemma in_without v l x :
  In x (without v l) -> In x l.
Proof.
  induction l as [|y l IH]; simpl; [tauto|].
  destruct (str_eqb (value y) v); simpl; tauto.
Qed.

Lemma in_without_other v l x :
  value x <> v -> In x l -> In x (without v l).
Proof.
  induction l as [|y l IH]; simpl; [tauto|].
  destruct (str_eqb (value y) v) eqn:E; simpl.
  - apply str_eqb_eq in E. intros Hx [->|H]; [contradiction | assumption].
  - intros Hx [->|H]; auto.
Qed.

Lemma NoDup_without v l :
  NoDup (map value l) ->
  NoDup (map value (without v l)) /\ ~ In v (map value (without v l)).
Proof.
  induction l as [|y l IH]; simpl; intros H.
  - split; [constructor | tauto].
  - inversion H as [|? ? Hy Hl]; subst.
    destruct (str_eqb (value y) v) eqn:E.
    + apply str_eqb_eq in E. subst v. auto.
    + apply str_eqb_neq in E. destruct (IH Hl) as [H1 H2]. simpl. split.
      * constructor; [|assumption].
        intros Hin. apply Hy. apply in_map_iff in Hin.
        destruct Hin as (x & Hx & Hin). apply in_map_iff.
        exists x. split; [assumption | eapply in_without; eassumption].
      * intros [Heq|Hin]; [congruence | contradiction].
Qed.

Lemma length_without v l :
  In v (map value l) -> S (List.length (without v l)) = List.length l.
Proof.
  induction l as [|y l IH]; simpl; [tauto|].
  destruct (str_eqb (value y) v) eqn:E; [reflexivity|].
  apply str_eqb_neq in E. intros [H|H]; [contradiction|].
  simpl. rewrite (IH H). reflexivity.
Qed.

(** The three ways [add_phone] ends. *)
Lemma add_phone_duplicate p self :
  stored p self ->
  add_phone p self = (Raise (DuplicatePhone p (value (name self))), self).
Proof.
  intros H. destruct (find_phone_stored _ _ H) as (ph & E & _).
  unfold add_phone. rewrite E. reflexivity.
Qed.

Lemma add_phone_invalid p self :
  ~ stored p self -> Phone_init p = Raise InvalidPhoneFormat ->
  add_phone p self = (Raise InvalidPhoneFormat, self).
Proof.
  intros H E. apply find_phone_None in H.
  unfold add_phone, mbind, pure_call. rewrite H, E. reflexivity.
Qed.

Lemma add_phone_appends p self :
  ~ stored p self -> Phone_init p = Ok (mkField p) ->
  add_phone p self =
  (Ok tt, mkContact (name self) (phones self ++ [mkField p]) (birthday self)).
Proof.
  intros H E. apply find_phone_None in H.
  unfold add_phone, mbind, pure_call. rewrite H, E. reflexivity.
Qed.

Lemma remove_phone_found p self :
  stored p self ->
  remove_phone p self =
  (Ok tt, mkContact (name self) (without p (phones self)) (birthday self)).
Proof.
  intros H. destruct (find_phone_stored _ _ H) as (ph & E & _).
  unfold remove_phone. rewrite E. unfold find_phone in E.
  rewrite (list_remove_found p _ _ E). reflexivity.
Qed.

Lemma remove_phone_missing p self :
  ~ stored p self -> remove_phone p self = (Raise (PhoneNotFound p), self).
Proof.
  intros H. apply find_phone_None in H. unfold remove_phone. rewrite H.
  reflexivity.
Qed.

(** The four ways [edit_phone] ends. *)
Lemma edit_phone_missing old new self :
  ~ stored old self ->
  edit_phone old new self = (Raise (PhoneNotFound old), self).
Proof.
  intros H. apply find_phone_None in H. unfold edit_phone. rewrite H.
  reflexivity.
Qed.

Lemma edit_phone_duplicate old new self :
  stored old self -> stored new self ->
  edit_phone old new self =
  (Raise (DuplicatePhone new (value (name self))), self).
Proof.
  intros Ho Hn. destruct (find_phone_stored _ _ Ho) as (ph & E & _).
  unfold edit_phone. rewrite E. unfold mbind.
  rewrite (add_phone_duplicate _ _ Hn). reflexivity.
Qed.

Lemma edit_phone_invalid old new self :
  stored old self -> ~ stored new self ->
  Phone_init new = Raise InvalidPhoneFormat ->
  edit_phone old new self = (Raise InvalidPhoneFormat, self).
Proof.
  intros Ho Hn Hi. destruct (find_phone_stored _ _ Ho) as (ph & E & _).
  unfold edit_phone. rewrite E. unfold mbind.
  rewrite (add_phone_invalid _ _ Hn Hi). reflexivity.
Qed.

Lemma edit_phone_replaces old new self :
  stored old self -> ~ stored new self ->
  Phone_init new = Ok (mkField new) ->
  edit_phone old new self =
  (Ok tt, mkContact (name self) (without old (phones self) ++ [mkField new])
                    (birthday self)).
Proof.
  intros Ho Hn Hi. destruct (find_phone_stored _ _ Ho) as (ph & E & _).
  unfold edit_phone. rewrite E. unfold mbind.
  rewrite (add_phone_appends _ _ Hn Hi).
  rewrite remove_phone_found.
  - simpl. rewrite without_app_found by exact Ho. reflexivity.
  - unfold stored. simpl. rewrite map_app, in_app_iff. left. exact Ho.
Qed.

Lemma stored_dec p self : stored p self \/ ~ stored p self.
Proof.
  destruct (find_phone p self) eqn:E.
  - left. destruct (find_phone_None p self) as [_ H].
    destruct (in_dec (list_eq_dec N.eq_dec) p (map value (phones self)));
      [assumption|]. rewrite (H n) in E. discriminate.
  - right. apply find_phone_None. exact E.
Qed.

Lemma Phone_init_cases p :
  Phone_init p = Ok (mkField p) \/ Phone_init p = Raise InvalidPhoneFormat.
Proof.
  rewrite Phone_init_eq.
  destruct ((len p =? 10) && forallb char_isdigit p); auto.
Qed.

End RecordFacts.

(** *** What holds of every record the program builds *)

Lemma NoDup_snoc (l : list str) (x : str) :
  NoDup l -> ~ In x l -> NoDup (l ++ [x]).
Proof.
  induction l as [|y l IH]; simpl; intros Hl Hx.
  - constructor; [tauto | constructor].
  - inversion Hl as [|? ? Hy Hl']; subst. constructor.
    + rewrite in_app_iff. simpl. intros [H|[H|[]]]; [tauto|]. subst. tauto.
    + apply IH; tauto.
Qed.

Lemma Forall_without (P : Phone -> Prop) v (l : list Phone) :
  Forall P l -> Forall P (without v l).
Proof.
  rewrite !Forall_forall. intros H x Hx. apply H. eapply in_without; eassumption.
Qed.

Lemma add_phone_state p self :
  snd (add_phone p self) = self
  \/ (~ stored p self /\ Phone_init p = Ok (mkField p)
      /\ snd (add_phone p self) =
         mkContact (name self) (phones self ++ [mkField p]) (birthday self)).
Proof.
  destruct (stored_dec p self) as [H|H].
  - left. rewrite add_phone_duplicate by assumption. reflexivity.
  - destruct (Phone_init_cases p) as [E|E].
    + right. rewrite add_phone_appends by assumption. auto.
    + left. rewrite add_phone_invalid by assumption. reflexivity.
Qed.

Lemma remove_phone_state p self :
  snd (remove_phone p self) = self
  \/ snd (remove_phone p self) =
     mkContact (name self) (without p (phones self)) (birthday self).
Proof.
  destruct (stored_dec p self) as [H|H].
  - right. rewrite remove_phone_found by assumption. reflexivity.
  - left. rewrite remove_phone_missing by assumption. reflexivity.
Qed.

Lemma edit_phone_state old new self :
  snd (edit_phone old new self) = self
  \/ (~ stored new self /\ Phone_init new = Ok (mkField new)
      /\ snd (edit_phone old new self) =
         mkContact (name self) (without old (phones self) ++ [mkField new])
                   (birthday self)).
Proof.
  destruct (stored_dec old self) as [Ho|Ho].
  - destruct (stored_dec new self) as [Hn|Hn].
    + left. rewrite edit_phone_duplicate by assumption. reflexivity.
    + destruct (Phone_init_cases new) as [E|E].
      * right. rewrite edit_phone_replaces by assumption. auto.
      * left. rewrite edit_phone_invalid by assumption. reflexivity.
  - left. rewrite edit_phone_missing by assumption. reflexivity.
Qed.

Lemma Birthday_init_cases (v : str) :
  Birthday_init v = Ok (mkField v) \/ Birthday_init v = Raise InvalidDateFormat.
Proof. unfold Birthday_init. destruct (strptime_dmY v); auto. Qed.

Lemma add_birthday_state b self :
  snd (add_birthday b self) = self
  \/ (Birthday_init b = Ok (mkField b)
      /\ snd (add_birthday b self) =
         mkContact (name self) (phones self) (Some (mkField b))).
Proof.
  unfold add_birthday. destruct (birthday self); [left; reflexivity|].
  unfold mbind, pure_call. destruct (Birthday_init_cases b) as [E|E]; rewrite E.
  - right. auto.
  - left. reflexivity.
Qed.

Lemma reachable_well_formed (self : Contact) :
  reachable self -> well_formed self.
Proof.
  induction 1 as [n r E | p r _ IH | p r _ IH | old new r _ IH | b r _ IH].
  - injection E as <-. repeat split; simpl; [constructor | constructor | discriminate].
  - destruct (add_phone_state p r) as [->|(Hn & Hi & ->)]; [exact IH|].
    destruct IH as (H1 & H2 & H3). repeat split; simpl.
    + rewrite map_app. apply NoDup_snoc; assumption.
    + apply Forall_app. split; [assumption | constructor; [exact Hi | constructor]].
    + exact H3.
  - destruct (remove_phone_state p r) as [->| ->]; [exact IH|].
    destruct IH as (H1 & H2 & H3). repeat split; simpl.
    + apply NoDup_without. exact H1.
    + apply Forall_without. exact H2.
    + exact H3.
  - destruct (edit_phone_state old new r) as [->|(Hn & Hi & ->)]; [exact IH|].
    destruct IH as (H1 & H2 & H3). repeat split; simpl.
    + rewrite map_app. apply NoDup_snoc; [apply NoDup_without; exact H1|].
      intros Hin. apply Hn. apply in_map_iff in Hin.
      destruct Hin as (x & Hx & Hin). apply in_map_iff. exists x.
      split; [assumption | eapply in_without; eassumption].
    + apply Forall_app. split; [apply Forall_without; exact H2|].
      constructor; [exact Hi | constructor].
    + exact H3.
  - destruct (add_birthday_state b r) as [->|(Hi & ->)]; [exact IH|].
    destruct IH as (H1 & H2 & H3). repeat split; simpl; try assumption.
    intros b' Hb'. injection Hb' as <-. exact Hi.
Qed.

(** C6: in a record the program built, if [old] is stored, and [new] is a
    phone string [Phone] accepts that is not stored, then
    [edit_phone(old, new)] returns; afterwards [find_phone(old)] is [None]
    and [find_phone(new)] is the new phone; the stored phones are [new] and
    the former ones but [old], as many as before, and the name and the
    birthday are as they were. *)
Theorem edit_phone_replaces_old_by_new (self : Contact) (old new : str) :
  reachable self ->
  stored old self ->
  ~ stored new self ->
  Phone_init new = Ok (mkField new) ->
  exists self',
    edit_phone old new self = (Ok tt, self')
    /\ find_phone old self' = None
    /\ find_phone new self' = Some (mkField new)
    /\ (forall p, stored p self' <-> p = new \/ (stored p self /\ p <> old))
    /\ List.length (phones self') = List.length (phones self)
    /\ name self' = name self
    /\ birthday self' = birthday self.
Proof.
  intros Hr Ho Hn Hi.
  destruct (reachable_well_formed _ Hr) as (Hnd & _ & _).
  destruct (NoDup_without old _ Hnd) as [Hnd' Hgone].
  assert (Hne : new <> old) by (intros ->; contradiction).
  exists (mkContact (name self) (without old (phones self) ++ [mkField new])
                    (birthday self)).
  split; [apply edit_phone_replaces; assumption|].
  assert (Hsto : forall p,
    In p (map value (without old (phones self) ++ [mkField new])) <->
    p = new \/ (stored p self /\ p <> old)).
  { intros p. rewrite map_app, in_app_iff. simpl. unfold stored. split.
    - intros [H|[H|[]]]; [right | left; auto].
      split; [|intros ->; contradiction].
      apply in_map_iff in H. destruct H as (x & Hx & Hin). apply in_map_iff.
      exists x. split; [assumption | eapply in_without; eassumption].
    - intros [->|[H Hp]]; [right; left; reflexivity | left].
      apply in_map_iff in H. destruct H as (x & Hx & Hin). apply in_map_iff.
      exists x. split; [assumption|]. apply in_without_other; congruence. }
  repeat split; simpl.
  - apply find_phone_None. unfold stored. simpl. rewrite Hsto.
    intros [H|[_ H]]; congruence.
  - unfold find_phone. simpl. rewrite find_value_app.
    assert (E : find (has_value new) (without old (phones self)) = None).
    { apply find_value_None. intros Hin. apply Hn.
      apply in_map_iff in Hin. destruct Hin as (x & Hx & Hin).
      apply in_map_iff. exists x.
      split; [assumption | eapply in_without; eassumption]. }
    rewrite E. simpl. unfold has_value. simpl. rewrite str_eqb_refl. reflexivity.
  - apply Hsto.
  - apply Hsto.
  - rewrite length_app. simpl. rewrite <- (length_without old (phones self) Ho). lia.
Qed.

(** C6 at a record with one phone. *)
Lemma edit_phone_replaces_old_by_new_witness :
  exists self',
    edit_phone (py "1234567890") (py "0987654321")
      (snd (add_phone (py "1234567890")
              (mkContact (mkField (py "Ann")) [] None))) = (Ok tt, self')
    /\ find_phone (py "1234567890") self' = None
    /\ find_phone (py "0987654321") self' = Some (mkField (py "0987654321")).
Proof.
  destruct (edit_phone_replaces_old_by_new
              (snd (add_phone (py "1234567890")
                      (mkContact (mkField (py "Ann")) [] None)))
              (py "1234567890") (py "0987654321"))
    as (self' & H1 & H2 & H3 & _).
  - apply reach_add_phone. apply (reach_init (py "Ann")). reflexivity.
  - vm_compute. left. reflexivity.
  - vm_compute. intros [H|[]]. discriminate.
  - reflexivity.
  - exists self'. auto.
Defined.

(** C7: a call of [edit_phone] that raises leaves the record as it was,
    whatever the record; and it raises exactly when [old] is not stored
    ([PhoneNotFound]), or [new] is stored ([DuplicatePhone]), or [Phone]
    refuses [new] ([InvalidPhoneFormat]). *)
Theorem edit_phone_atomic (self : Contact) (old new : str) :
  (forall e self', edit_phone old new self = (Raise e, self') -> self' = self)
  /\ (~ stored old self ->
      edit_phone old new self = (Raise (PhoneNotFound old), self))
  /\ (stored old self -> stored new self ->
      edit_phone old new self =
      (Raise (DuplicatePhone new (value (name self))), self))
  /\ (stored old self -> ~ stored new self ->
      Phone_init new <> Ok (mkField new) ->
      edit_phone old new self = (Raise InvalidPhoneFormat, self))
  /\ (is_ok (fst (edit_phone old new self)) = false <->
      ~ stored old self \/ stored new self \/ Phone_init new <> Ok (mkField new)).
Proof.
  assert (Hinv : stored old self -> ~ stored new self ->
                 Phone_init new <> Ok (mkField new) ->
                 edit_phone old new self = (Raise InvalidPhoneFormat, self)).
  { intros Ho Hn Hi. apply edit_phone_invalid; try assumption.
    destruct (Phone_init_cases new); [contradiction | assumption]. }
  split; [|split; [|split; [|split]]].
  - intros e self'.
    destruct (stored_dec old self) as [Ho|Ho];
      [destruct (stored_dec new self) as [Hn|Hn];
       [|destruct (Phone_init_cases new) as [E|E]]|].
    + rewrite edit_phone_duplicate by assumption. congruence.
    + rewrite edit_phone_replaces by assumption. discriminate.
    + rewrite edit_phone_invalid by assumption. congruence.
    + rewrite edit_phone_missing by assumption. congruence.
  - apply edit_phone_missing.
  - apply edit_phone_duplicate.
  - exact Hinv.
  - destruct (stored_dec old self) as [Ho|Ho];
      [destruct (stored_dec new self) as [Hn|Hn];
       [|destruct (Phone_init_cases new) as [E|E]]|].
    + rewrite edit_phone_duplicate by assumption. simpl. tauto.
    + rewrite edit_phone_replaces by assumption. simpl.
      split; [discriminate | intros [H|[H|H]]; contradiction].
    + rewrite edit_phone_invalid by assumption. simpl.
      split; [|reflexivity]. intros _. right. right. rewrite E. discriminate.
    + rewrite edit_phone_missing by assumption. simpl. tauto.
Qed.

(** C8: when a birthday is present, [add_birthday] raises
    [BirthdayAlreadySet] whatever the new text, and the record, its birthday
    included, is as it was. *)
Theorem add_birthday_never_overwrites (self : Contact) (b : Birthday) (raw : str) :
  birthday self = Some b ->
  add_birthday raw self = (Raise BirthdayAlreadySet, self)
  /\ birthday (snd (add_birthday raw self)) = Some b.
Proof.
  intros H. unfold add_birthday. rewrite H. split; [reflexivity | exact H].
Qed.

(** C8 for a second call after a first that set 24.08.1991. *)
Lemma add_birthday_never_overwrites_witness :
  let self := snd (add_birthday (py "24.08.1991")
                     (mkContact (mkField (py "Ann")) [] None)) in
  add_birthday (py "01.01.2000") self = (Raise BirthdayAlreadySet, self)
  /\ birthday (snd (add_birthday (py "01.01.2000") self))
     = Some (mkField (py "24.08.1991")).
Proof.
  intros self.
  apply (add_birthday_never_overwrites self (mkField (py "24.08.1991"))
           (py "01.01.2000")).
  vm_compute. reflexivity.
Defined.

(** C9, as amended: [Record(name)] accepts every name, the empty string
    included, and returns a record of that name with no phone and no
    birthday, one in which no phone string is found. *)
Theorem Record_init_any_name (n : str) :
  exists self,
    Record_init n = Ok self
    /\ value (name self) = n /\ phones self = [] /\ birthday self = None
    /\ (forall p, find_phone p self = None)
    /\ reachable self.
Proof.
  exists (mkContact (mkField n) [] None).
  split; [reflexivity|]. repeat split.
  apply (reach_init n). reflexivity.
Qed.

(** C9, as stated, fails: creating a record with the empty name does not
    fail, it returns a record whose name is the empty string. *)
Lemma Record_init_empty_name :
  Record_init [] = Ok (mkContact (mkField []) [] None)
  /\ is_ok (Record_init []) = true.
Proof. split; reflexivity. Qed.

(** C10: for a stored phone [p], [edit_phone(p, p)] raises [DuplicatePhone]
    and leaves the record as it was. *)
Theorem edit_phone_same_is_duplicate (self : Contact) (p : str) :
  stored p self ->
  edit_phone p p self = (Raise (DuplicatePhone p (value (name self))), self).
Proof. intros H. apply edit_phone_duplicate; exact H. Qed.

(** C10 at a record with one phone. *)
Lemma edit_phone_same_is_duplicate_witness :
  let self := mkContact (mkField (py "Ann")) [mkField (py "1234567890")] None in
  edit_phone (py "1234567890") (py "1234567890") self =
  (Raise (DuplicatePhone (py "1234567890") (py "Ann")), self).
Proof.
  intros self. apply (edit_phone_same_is_duplicate self (py "1234567890")).
  vm_compute. left. reflexivity.
Defined.

(** ** The calendar *)

Lemma Zseq_In (x lo : Z) (n : nat) :
  lo <= x < lo + Z.of_nat n -> In x (Zseq lo n).
Proof.
  revert lo. induction n as [|n IH]; intros lo H; simpl; [lia|].
  destruct (Z.eq_dec lo x) as [E|E]; [left; exact E | right].
  apply IH. lia.
Qed.

(** A check on every value of a range, run by computation. *)
Lemma forall_range (P : Z -> bool) (lo : Z) (n : nat) :
  forallb P (Zseq lo n) = true ->
  forall x, lo <= x < lo + Z.of_nat n -> P x = true.
Proof.
  intros H x Hx. rewrite forallb_forall in H. apply H, Zseq_In, Hx.
Qed.

Lemma month_day_spec (leapyear : bool) (n : Z) :
  0 <= n < 365 ->
  let '(m, d) := month_day leapyear n in
  1 <= m <= 12 /\ 1 <= d <= leap_days leapyear m
  /\ leap_before leapyear m + d = n + 1.
Proof.
  intros Hn.
  assert (H : (let '(m, d) := month_day leapyear n in
               (1 <=? m) && (m <=? 12) && (1 <=? d)
               && (d <=? leap_days leapyear m)
               && (leap_before leapyear m + d =? n + 1)) = true).
  { revert n Hn. destruct leapyear;
      apply (forall_range _ 0 365); vm_compute; reflexivity. }
  destruct (month_day leapyear n) as [m d].
  rewrite !andb_true_iff in H. lia.
Qed.

Lemma days_before_year_cycle (k a b c : Z) :
  0 <= a <= 3 -> 0 <= b <= 24 -> 0 <= c <= 3 ->
  _days_before_year (400 * k + 100 * a + 4 * b + c + 1)
  = 146097 * k + 36524 * a + 1461 * b + 365 * c.
Proof.
  intros Ha Hb Hc. unfold _days_before_year.
  replace (400 * k + 100 * a + 4 * b + c + 1 - 1)
    with (400 * k + 100 * a + 4 * b + c) by lia.
  assert (E4 : (400 * k + 100 * a + 4 * b + c) / 4 = 100 * k + 25 * a + b)
    by (symmetry; apply (Z.div_unique _ 4 _ c); lia).
  assert (E100 : (400 * k + 100 * a + 4 * b + c) / 100 = 4 * k + a)
    by (symmetry; apply (Z.div_unique _ 100 _ (4 * b + c)); lia).
  assert (E400 : (400 * k + 100 * a + 4 * b + c) / 400 = k)
    by (symmetry; apply (Z.div_unique _ 400 _ (100 * a + 4 * b + c)); lia).
  rewrite E4, E100, E400. lia.
Qed.

Lemma is_leap_cycle (k a b c : Z) :
  0 <= a <= 3 -> 0 <= b <= 24 -> 0 <= c <= 3 ->
  _is_leap (400 * k + 100 * a + 4 * b + c + 1)
  = (c =? 3) && (negb (b =? 24) || (a =? 3)).
Proof.
  intros Ha Hb Hc. unfold _is_leap.
  assert (E4 : (400 * k + 100 * a + 4 * b + c + 1) mod 4 = (c + 1) mod 4).
  { replace (400 * k + 100 * a + 4 * b + c + 1)
      with (c + 1 + (100 * k + 25 * a + b) * 4) by lia.
    apply Z.mod_add. lia. }
  rewrite E4.
  destruct (Z.eqb_spec c 3) as [->|Hc3].
  - change ((3 + 1) mod 4 =? 0) with true. cbn [andb].
    assert (E100 : (400 * k + 100 * a + 4 * b + 3 + 1) mod 100
                   = (4 * b + 4) mod 100).
    { replace (400 * k + 100 * a + 4 * b + 3 + 1)
        with (4 * b + 4 + (4 * k + a) * 100) by lia.
      apply Z.mod_add. lia. }
    rewrite E100.
    destruct (Z.eqb_spec b 24) as [->|Hb24].
    + change ((4 * 24 + 4) mod 100 =? 0) with true. cbn [negb orb].
      replace (400 * k + 100 * a + 4 * 24 + 3 + 1)
        with (100 * a + 100 + k * 400) by lia.
      rewrite Z.mod_add by lia.
      destruct (Z.eqb_spec a 3) as [->|Ha3]; [reflexivity|].
      rewrite Z.mod_small by lia.
      apply Z.eqb_neq. lia.
    + rewrite Z.mod_small by lia.
      destruct (Z.eqb_spec (4 * b + 4) 0); [lia | reflexivity].
  - assert ((c + 1) mod 4 <> 0) by (rewrite Z.mod_small; lia).
    destruct (Z.eqb_spec ((c + 1) mod 4) 0); [contradiction | reflexivity].
Qed.

Lemma ord2ymd_unfold (n : Z) :
  _ord2ymd n =
  let k := (n - 1) / 146097 in
  let r1 := (n - 1) mod 146097 in
  let a := r1 / 36524 in
  let r2 := r1 mod 36524 in
  let b := r2 / 1461 in
  let r3 := r2 mod 1461 in
  let c := r3 / 365 in
  let r4 := r3 mod 365 in
  let y := k * 400 + 1 + (a * 100 + b * 4 + c) in
  if (c =? 4) || (a =? 4) then (y - 1, 12, 31)
  else
    let '(m, d) := month_day ((c =? 3) && (negb (b =? 24) || (a =? 3))) r4 in
    (y, m, d).
Proof.
  unfold _ord2ymd, month_day, _DI400Y, _DI100Y, _DI4Y. cbv zeta.
  destruct ((_ =? 4) || (_ =? 4)); [reflexivity|].
  destruct (_ >? _); reflexivity.
Qed.

Lemma ord2ymd_spec (n : Z) :
  1 <= n ->
  let '(y, m, d) := _ord2ymd n in
  1 <= y /\ 1 <= m <= 12 /\ 1 <= d <= _days_in_month y m
  /\ _ymd2ord y m d = n.
Proof.
  intros Hn. rewrite ord2ymd_unfold. cbv zeta.
  pose proof (Z.div_mod (n - 1) 146097 ltac:(lia)) as E1.
  pose proof (Z.mod_pos_bound (n - 1) 146097 ltac:(lia)) as B1.
  assert (K : 0 <= (n - 1) / 146097) by (apply Z.div_pos; lia).
  remember ((n - 1) / 146097) as k eqn:Ek.
  remember ((n - 1) mod 146097) as r1 eqn:Er1.
  pose proof (Z.div_mod r1 36524 ltac:(lia)) as E2.
  pose proof (Z.mod_pos_bound r1 36524 ltac:(lia)) as B2.
  assert (A : 0 <= r1 / 36524 < 5)
    by (split; [apply Z.div_pos; lia | apply Z.div_lt_upper_bound; lia]).
  remember (r1 / 36524) as a eqn:Ea.
  remember (r1 mod 36524) as r2 eqn:Er2.
  pose proof (Z.div_mod r2 1461 ltac:(lia)) as E3.
  pose proof (Z.mod_pos_bound r2 1461 ltac:(lia)) as B3.
  assert (B : 0 <= r2 / 1461 < 25)
    by (split; [apply Z.div_pos; lia | apply Z.div_lt_upper_bound; lia]).
  remember (r2 / 1461) as b eqn:Eb.
  remember (r2 mod 1461) as r3 eqn:Er3.
  pose proof (Z.div_mod r3 365 ltac:(lia)) as E4.
  pose proof (Z.mod_pos_bound r3 365 ltac:(lia)) as B4.
  assert (C : 0 <= r3 / 365 < 5)
    by (split; [apply Z.div_pos; lia | apply Z.div_lt_upper_bound; lia]).
  remember (r3 / 365) as c eqn:Ec.
  remember (r3 mod 365) as r4 eqn:Er4.
  clear Ek Er1 Ea Er2 Eb Er3 Ec Er4.
  destruct (Z.eqb_spec c 4) as [Hc4|Hc4];
    [|destruct (Z.eqb_spec a 4) as [Ha4|Ha4]]; cbn [orb].
  - (* the last day of a leap year that is not the end of a century *)
    assert (Hb : b <= 23) by lia.
    replace (k * 400 + 1 + (a * 100 + b * 4 + c) - 1)
      with (400 * k + 100 * a + 4 * b + 3 + 1) by lia.
    assert (a <= 3) by lia.
    unfold _days_in_month, _ymd2ord, _days_before_month.
    rewrite days_before_year_cycle, is_leap_cycle by lia.
    replace (b =? 24) with false by (symmetry; apply Z.eqb_neq; lia).
    change (item _DAYS_IN_MONTH 12) with 31.
    change (item _DAYS_BEFORE_MONTH 12) with 334.
    change (12 =? 2) with false. change (12 >? 2) with true.
    change (3 =? 3) with true. cbn [andb orb negb]. lia.
  - (* the last day of a cycle of 400 years *)
    replace (k * 400 + 1 + (a * 100 + b * 4 + c) - 1)
      with (400 * k + 100 * 3 + 4 * 24 + 3 + 1) by lia.
    unfold _days_in_month, _ymd2ord, _days_before_month.
    rewrite days_before_year_cycle, is_leap_cycle by lia.
    change (item _DAYS_IN_MONTH 12) with 31.
    change (item _DAYS_BEFORE_MONTH 12) with 334.
    change (12 =? 2) with false. change (12 >? 2) with true.
    change ((3 =? 3) && (negb (24 =? 24) || (3 =? 3))) with true.
    cbn [andb orb negb]. lia.
  - replace (k * 400 + 1 + (a * 100 + b * 4 + c))
      with (400 * k + 100 * a + 4 * b + c + 1) by lia.
    pose proof (month_day_spec ((c =? 3) && (negb (b =? 24) || (a =? 3))) r4
                  ltac:(lia)) as H.
    destruct (month_day _ r4) as [m d].
    unfold _days_in_month, _ymd2ord, _days_before_month.
    rewrite days_before_year_cycle, is_leap_cycle by lia.
    unfold leap_days, leap_before in H. lia.
Qed.

Lemma days_before_year_next (y : Z) :
  _days_before_year (y + 1)
  = _days_before_year y + 365 + (if _is_leap y then 1 else 0).
Proof.
  unfold _days_before_year, _is_leap.
  replace (y + 1 - 1) with y by lia.
  destruct (Z.eqb_spec (y mod 4) 0) as [H4|H4];
    destruct (Z.eqb_spec (y mod 100) 0) as [H100|H100];
    destruct (Z.eqb_spec (y mod 400) 0) as [H400|H400];
    cbn [andb orb negb]; Z.div_mod_to_equations; lia.
Qed.

Lemma days_before_year_mono (y1 y2 : Z) :
  y1 <= y2 -> _days_before_year y1 <= _days_before_year y2.
Proof.
  intros H. unfold _days_before_year. Z.div_mod_to_equations. lia.
Qed.

Ltac month_cases m :=
  let H := fresh in
  assert (H : m = 1 \/ m = 2 \/ m = 3 \/ m = 4 \/ m = 5 \/ m = 6 \/ m = 7
              \/ m = 8 \/ m = 9 \/ m = 10 \/ m = 11 \/ m = 12) by lia;
  repeat (destruct H as [H|H]; [subst m|]); [..|subst m].

Lemma day_of_year_bounds (y m d : Z) :
  1 <= m <= 12 -> 1 <= d <= _days_in_month y m ->
  1 <= _days_before_month y m + d <= 365 + (if _is_leap y then 1 else 0).
Proof.
  unfold _days_in_month, _days_before_month. intros Hm.
  month_cases m; destruct (_is_leap y); vm_compute (item _ _);
    cbn [andb Z.eqb Z.gtb Z.compare Pos.compare Pos.compare_cont Pos.eqb];
    lia.
Qed.

Lemma days_before_month_mono (y m1 m2 : Z) :
  1 <= m1 -> m1 < m2 -> m2 <= 12 ->
  _days_before_month y m1 + _days_in_month y m1 <= _days_before_month y m2.
Proof.
  unfold _days_in_month, _days_before_month. intros H1 H H2.
  month_cases m1; month_cases m2; try lia; destruct (_is_leap y);
    vm_compute; discriminate.
Qed.

Lemma valid_day_in_month (d : date) : valid_date d -> day_in_month d.
Proof. unfold valid_date, day_in_month. tauto. Qed.

Lemma toordinal_lt (a b : date) :
  day_in_month a -> day_in_month b ->
  date_lt a b = true -> toordinal a < toordinal b.
Proof.
  destruct a as [ya ma da], b as [yb mb db].
  unfold day_in_month, date_lt, toordinal, _ymd2ord. simpl.
  intros [Hma Hda] [Hmb Hdb] H.
  pose proof (day_of_year_bounds ya ma da Hma Hda) as Ba.
  pose proof (day_of_year_bounds yb mb db Hmb Hdb) as Bb.
  apply orb_true_iff in H. destruct H as [H|H].
  - apply Z.ltb_lt in H.
    pose proof (days_before_year_next ya) as N.
    pose proof (days_before_year_mono (ya + 1) yb ltac:(lia)) as M.
    lia.
  - apply andb_true_iff in H. destruct H as [Hy H]. apply Z.eqb_eq in Hy.
    subst yb. apply orb_true_iff in H. destruct H as [H|H].
    + apply Z.ltb_lt in H.
      pose proof (days_before_month_mono ya ma mb ltac:(lia) H ltac:(lia)).
      lia.
    + apply andb_true_iff in H. destruct H as [Hm H]. apply Z.eqb_eq in Hm.
      apply Z.ltb_lt in H. subst mb. lia.
Qed.

Lemma date_lt_total (a b : date) :
  date_lt a b = false -> a = b \/ date_lt b a = true.
Proof.
  destruct a as [ya ma da], b as [yb mb db]. unfold date_lt. simpl.
  intros H.
  destruct (Z.ltb_spec ya yb), (Z.eqb_spec ya yb), (Z.ltb_spec ma mb),
    (Z.eqb_spec ma mb), (Z.ltb_spec da db); try discriminate; try lia;
    destruct (Z.ltb_spec yb ya), (Z.eqb_spec yb ya), (Z.ltb_spec mb ma),
      (Z.eqb_spec mb ma), (Z.ltb_spec db da); simpl; try lia; auto;
    left; f_equal; lia.
Qed.

(** Dates compare as their day numbers do. *)
Lemma date_lt_toordinal (a b : date) :
  day_in_month a -> day_in_month b ->
  date_lt a b = (toordinal a <? toordinal b).
Proof.
  intros Ha Hb. destruct (date_lt a b) eqn:E.
  - symmetry. apply Z.ltb_lt. apply toordinal_lt; assumption.
  - symmetry. apply Z.ltb_ge. destruct (date_lt_total a b E) as [->|H].
    + lia.
    + pose proof (toordinal_lt b a Hb Ha H). lia.
Qed.

Lemma date_le_toordinal (a b : date) :
  day_in_month a -> day_in_month b ->
  date_le a b = (toordinal a <=? toordinal b).
Proof.
  intros Ha Hb. unfold date_le. rewrite date_lt_toordinal by assumption.
  destruct (Z.ltb_spec (toordinal b) (toordinal a)),
    (Z.leb_spec (toordinal a) (toordinal b)); simpl; try reflexivity; lia.
Qed.

Lemma toordinal_inj (a b : date) :
  day_in_month a -> day_in_month b -> toordinal a = toordinal b -> a = b.
Proof.
  intros Ha Hb E.
  destruct (date_lt a b) eqn:L.
  - pose proof (toordinal_lt a b Ha Hb L). lia.
  - destruct (date_lt_total a b L) as [H|H]; [exact H|].
    pose proof (toordinal_lt b a Hb Ha H). lia.
Qed.

Lemma date_new_valid (y m d : Z) :
  valid_date (mkdate y m d) -> date_new y m d = Ok (mkdate y m d).
Proof.
  unfold valid_date, date_new. simpl. intros (Hy & Hm & Hd).
  destruct (Z.leb_spec MINYEAR y), (Z.leb_spec y MAXYEAR); try lia.
  destruct (Z.leb_spec 1 m), (Z.leb_spec m 12); try lia.
  destruct (Z.leb_spec 1 d), (Z.leb_spec d (_days_in_month y m)); try lia.
  reflexivity.
Qed.

Lemma date_new_Ok (y m d : Z) (x : date) :
  date_new y m d = Ok x -> x = mkdate y m d /\ valid_date x.
Proof.
  unfold valid_date, date_new.
  destruct (Z.leb_spec MINYEAR y), (Z.leb_spec y MAXYEAR); try discriminate;
  destruct (Z.leb_spec 1 m), (Z.leb_spec m 12); try discriminate;
  destruct (Z.leb_spec 1 d), (Z.leb_spec d (_days_in_month y m));
    try discriminate.
  simpl. intros E. injection E as <-. simpl. auto.
Qed.

Lemma date_new_Raise (y m d : Z) (e : exception) :
  date_new y m d = Raise e -> exists msg, e = ValueError msg.
Proof.
  unfold date_new.
  repeat match goal with
         | |- context [if ?b then _ else _] => destruct b
         end; intros E; try discriminate; injection E as <-; eauto.
Qed.

Lemma toordinal_bounds (d : date) :
  valid_date d -> 1 <= toordinal d <= _MAXORDINAL.
Proof.
  intros (Hy & Hm & Hd). unfold toordinal, _ymd2ord.
  pose proof (day_of_year_bounds _ _ _ Hm Hd) as B.
  pose proof (days_before_year_next (year d)) as N.
  unfold MINYEAR, MAXYEAR in Hy.
  pose proof (days_before_year_mono 1 (year d) ltac:(lia)) as M1.
  pose proof (days_before_year_mono (year d + 1) 10000 ltac:(lia)) as M2.
  change (_days_before_year 1) with 0 in M1.
  change (_days_before_year 10000) with 3652059 in M2.
  unfold _MAXORDINAL. lia.
Qed.

Lemma ord2ymd_toordinal (d : date) :
  valid_date d -> _ord2ymd (toordinal d) = (year d, month d, day d).
Proof.
  intros V. pose proof (toordinal_bounds d V) as B.
  pose proof (ord2ymd_spec (toordinal d) ltac:(lia)) as H.
  destruct (_ord2ymd (toordinal d)) as [[y m] d'].
  destruct H as (_ & Hm & Hd & E).
  assert (X : mkdate y m d' = d).
  { apply toordinal_inj; [split; assumption | apply valid_day_in_month, V |].
    exact E. }
  rewrite <- X. reflexivity.
Qed.

Lemma fromordinal_Ok (n : Z) :
  1 <= n <= _MAXORDINAL ->
  exists d, fromordinal n = Ok d /\ valid_date d /\ toordinal d = n.
Proof.
  intros Hn. unfold fromordinal.
  pose proof (ord2ymd_spec n ltac:(lia)) as H.
  destruct (_ord2ymd n) as [[y m] d]. destruct H as (Hy & Hm & Hd & E).
  assert (V : valid_date (mkdate y m d)).
  { assert (Y : y <= 9999).
    { destruct (Z.le_gt_cases y 9999) as [L|L]; [exact L|].
      pose proof (days_before_year_mono 10000 y ltac:(lia)) as M.
      change (_days_before_year 10000) with 3652059 in M.
      pose proof (day_of_year_bounds _ _ _ Hm Hd) as B.
      unfold _ymd2ord, _MAXORDINAL in *. lia. }
    unfold valid_date, MINYEAR, MAXYEAR. simpl. lia. }
  exists (mkdate y m d). rewrite date_new_valid by exact V. auto.
Qed.

Lemma date_add_Ok (a : date) (k : Z) :
  1 <= toordinal a + k <= _MAXORDINAL ->
  exists d, date_add a (mktimedelta k) = Ok d /\ valid_date d
            /\ toordinal d = toordinal a + k.
Proof.
  intros H. unfold date_add. simpl.
  destruct (Z.ltb_spec 0 (toordinal a + k)); [|lia].
  destruct (Z.leb_spec (toordinal a + k) _MAXORDINAL); [|lia].
  apply fromordinal_Ok. exact H.
Qed.

(** ** Patterns *)

Lemma denotes_one (f : char -> bool) :
  denotes (one f) (fun a => exists c, a = [c] /\ f c = true).
Proof.
  intros s a r. unfold one. destruct s as [|c s]; simpl.
  - split; [tauto|]. intros [E (c & -> & _)]. discriminate.
  - destruct (f c) eqn:F; simpl.
    + split.
      * intros [H|[]]. injection H as <- <-. eauto.
      * intros [E (c' & -> & _)]. injection E as <- <-. auto.
    + split; [tauto|]. intros [E (c' & -> & F')]. injection E as <- <-.
      congruence.
Qed.

Lemma denotes_seq (p q : pattern) (L1 L2 : str -> Prop) :
  denotes p L1 -> denotes q L2 ->
  denotes (seq p q)
          (fun a => exists a1 a2, a = a1 ++ a2 /\ L1 a1 /\ L2 a2).
Proof.
  intros Hp Hq s a r. unfold seq. rewrite in_flat_map. split.
  - intros ([a1 s1] & H1 & H2). apply in_map_iff in H2.
    destruct H2 as ([a2 s2] & E & H2). injection E as <- <-.
    apply Hp in H1. apply Hq in H2. destruct H1 as [-> L1a], H2 as [-> L2a].
    split; [rewrite app_assoc; reflexivity | eauto].
  - intros [-> (a1 & a2 & -> & L1a & L2a)].
    exists (a1, a2 ++ r). split.
    + apply Hp. rewrite app_assoc. auto.
    + apply in_map_iff. exists (a2, r). split; [reflexivity|].
      apply Hq. auto.
Qed.

Lemma denotes_alt (p q : pattern) (L1 L2 : str -> Prop) :
  denotes p L1 -> denotes q L2 -> denotes (alt p q) (fun a => L1 a \/ L2 a).
Proof.
  intros Hp Hq s a r. unfold alt. rewrite in_app_iff, (Hp s a r), (Hq s a r).
  tauto.
Qed.

Lemma denotes_ext (p : pattern) (L L' : str -> Prop) :
  (forall a, L a <-> L' a) -> denotes p L -> denotes p L'.
Proof. intros E H s a r. rewrite (H s a r), (E a). tauto. Qed.

Ltac pattern_language :=
  repeat first [ apply denotes_alt | apply denotes_seq | apply denotes_one ].

Ltac split_orb H :=
  repeat match type of H with
         | (_ || _) = true => apply orb_true_iff in H; destruct H as [H|H]
         end.

Lemma re_d_day_text : denotes re_d (fun a => day_text a = true).
Proof.
  eapply denotes_ext; [|unfold re_d, lit, range, digit; pattern_language].
  intros a. cbv beta. split.
  - intros [H|[H|[H|[H|H]]]].
    + destruct H as (? & ? & -> & (c1 & -> & H1) & (c2 & -> & H2)).
      cbn [app]. unfold day_text, in_range. rewrite H1, H2.
      cbn [andb orb]; rewrite ?orb_true_r; reflexivity.
    + destruct H as (? & ? & -> & (c1 & -> & H1) & (c2 & -> & H2)).
      cbn [app]. unfold day_text, in_range. rewrite H1, H2.
      cbn [andb orb]; rewrite ?orb_true_r; reflexivity.
    + destruct H as (? & ? & -> & (c1 & -> & H1) & (c2 & -> & H2)).
      cbn [app]. unfold day_text, in_range. rewrite H1, H2.
      cbn [andb orb]; rewrite ?orb_true_r; reflexivity.
    + destruct H as (c & -> & H). exact H.
    + destruct H as (? & ? & -> & (c1 & -> & H1) & (c2 & -> & H2)).
      cbn [app]. unfold day_text, in_range. rewrite H1, H2.
      cbn [andb orb]; rewrite ?orb_true_r; reflexivity.
  - destruct a as [|c1 [|c2 [|]]]; simpl; try discriminate.
    + intros H. right. right. right. left. eauto.
    + intros H. split_orb H; apply andb_true_iff in H; destruct H as [H1 H2].
      * left. exists [c1], [c2]. eauto 10.
      * right. left. exists [c1], [c2]. eauto 10.
      * right. right. left. exists [c1], [c2]. eauto 10.
      * right. right. right. right. exists [c1], [c2]. eauto 10.
Qed.

Lemma re_m_month_text : denotes re_m (fun a => month_text a = true).
Proof.
  eapply denotes_ext; [|unfold re_m, lit, range, digit; pattern_language].
  intros a. cbv beta. split.
  - intros [H|[H|H]].
    + destruct H as (? & ? & -> & (c1 & -> & H1) & (c2 & -> & H2)).
      cbn [app]. unfold month_text, in_range. rewrite H1, H2.
      cbn [andb orb]; rewrite ?orb_true_r; reflexivity.
    + destruct H as (? & ? & -> & (c1 & -> & H1) & (c2 & -> & H2)).
      cbn [app]. unfold month_text, in_range. rewrite H1, H2.
      cbn [andb orb]; rewrite ?orb_true_r; reflexivity.
    + destruct H as (c & -> & H). exact H.
  - destruct a as [|c1 [|c2 [|]]]; simpl; try discriminate.
    + intros H. right. right. eauto.
    + intros H. split_orb H; apply andb_true_iff in H; destruct H as [H1 H2].
      * left. exists [c1], [c2]. eauto 10.
      * right. left. exists [c1], [c2]. eauto 10.
Qed.

Lemma re_Y_year_text : denotes re_Y (fun a => year_text a = true).
Proof.
  eapply denotes_ext; [|unfold re_Y, digit; pattern_language].
  intros a. cbv beta. unfold year_text. split.
  - intros (? & ? & -> & (c1 & -> & H1) & ? & ? & -> & (c2 & -> & H2)
            & ? & ? & -> & (c3 & -> & H3) & (c4 & -> & H4)).
    simpl. rewrite H1, H2, H3, H4. reflexivity.
  - destruct a as [|c1 [|c2 [|c3 [|c4 [|]]]]]; try discriminate.
    + simpl. intros H. rewrite !andb_true_iff in H.
      destruct H as (H1 & H2 & H3 & H4 & _).
      exists [c1], [c2; c3; c4]. split; [reflexivity|]. split; [eauto|].
      exists [c2], [c3; c4]. split; [reflexivity|]. split; [eauto|].
      exists [c3], [c4]. eauto 10.
    + unfold len. simpl List.length. intros H. apply andb_true_iff in H.
      destruct H as [H _]. apply Z.eqb_eq in H. lia.
Qed.

Lemma lit_dot : denotes (lit ".") (fun a => a = py ".").
Proof.
  eapply denotes_ext; [|unfold lit; apply denotes_one].
  intros a. cbv beta. split.
  - intros (c & -> & H). apply N.eqb_eq in H. subst c. reflexivity.
  - intros ->. exists 46%N. split; reflexivity.
Qed.

(** ** [strptime] *)

Lemma in_matches_dmY (data d m y r : str) :
  In (d, m, y, r) (matches_dmY data) <->
  data = d ++ py "." ++ m ++ py "." ++ y ++ r
  /\ day_text d = true /\ month_text m = true /\ year_text y = true.
Proof.
  unfold matches_dmY. split.
  - intros H.
    apply in_flat_map in H. destruct H as ([d' s1] & H1 & H).
    apply in_flat_map in H. destruct H as ([p1 s2] & H2 & H).
    apply in_flat_map in H. destruct H as ([m' s3] & H3 & H).
    apply in_flat_map in H. destruct H as ([p2 s4] & H4 & H).
    apply in_map_iff in H. destruct H as ([y' s5] & E & H5).
    injection E as <- <- <- <-.
    apply re_d_day_text in H1. apply lit_dot in H2. apply re_m_month_text in H3.
    apply lit_dot in H4. apply re_Y_year_text in H5.
    destruct H1 as [-> ?], H2 as [-> ->], H3 as [-> ?], H4 as [-> ->],
      H5 as [-> ?].
    auto.
  - intros (-> & Hd & Hm & Hy).
    apply in_flat_map. exists (d, py "." ++ m ++ py "." ++ y ++ r).
    split; [apply re_d_day_text; auto|].
    apply in_flat_map. exists (py ".", m ++ py "." ++ y ++ r).
    split; [apply lit_dot; auto|].
    apply in_flat_map. exists (m, py "." ++ y ++ r).
    split; [apply re_m_month_text; auto|].
    apply in_flat_map. exists (py ".", y ++ r).
    split; [apply lit_dot; auto|].
    apply in_map_iff. exists (y, r).
    split; [reflexivity | apply re_Y_year_text; auto].
Qed.

(** A text is cut at its first dot in one way only. *)
Lemma first_dot_unique (a a' r r' : str) :
  ~ In 46%N a -> ~ In 46%N a' ->
  a ++ 46%N :: r = a' ++ 46%N :: r' -> a = a' /\ r = r'.
Proof.
  revert a'. induction a as [|c a IH]; intros [|c' a']; simpl; intros Ha Ha' E.
  - injection E as <-. auto.
  - injection E as <- _. tauto.
  - injection E as -> _. tauto.
  - injection E as <- E. destruct (IH a') as [<- <-]; auto.
Qed.

Lemma day_text_no_dot (d : str) : day_text d = true -> ~ In 46%N d.
Proof.
  destruct d as [|c1 [|c2 [|]]]; unfold day_text; try discriminate.
  - intros H [->|[]]. discriminate.
  - intros H [->|[->|[]]].
    + discriminate.
    + revert H. unfold char_eqb, in_range.
      change (char_isdecimal 46%N) with false.
      change (chr "0" <=? 46)%N with false.
      change (chr "1" <=? 46)%N with false.
      rewrite !andb_false_r. discriminate.
Qed.

Lemma month_text_no_dot (m : str) : month_text m = true -> ~ In 46%N m.
Proof.
  destruct m as [|c1 [|c2 [|]]]; unfold month_text; try discriminate.
  - intros H [->|[]]. discriminate.
  - intros H [->|[->|[]]].
    + discriminate.
    + revert H. unfold char_eqb, in_range.
      change (chr "0" <=? 46)%N with false.
      change (chr "1" <=? 46)%N with false.
      rewrite !andb_false_r. discriminate.
Qed.

Lemma year_text_length (y : str) : year_text y = true -> List.length y = 4%nat.
Proof.
  unfold year_text, len. intros H. apply andb_true_iff in H.
  destruct H as [H _]. apply Z.eqb_eq in H. lia.
Qed.

(** A text of the three fields matches in one way only. *)
Lemma match_dmY_fields (d m y : str) :
  day_text d = true -> month_text m = true -> year_text y = true ->
  match_dmY (d ++ py "." ++ m ++ py "." ++ y) = Some (d, m, y, []).
Proof.
  intros Hd Hm Hy. unfold match_dmY.
  assert (Hin : In (d, m, y, []) (matches_dmY (d ++ py "." ++ m ++ py "." ++ y))).
  { apply in_matches_dmY. rewrite app_nil_r. auto. }
  destruct (matches_dmY (d ++ py "." ++ m ++ py "." ++ y))
    as [|[[[d' m'] y'] r'] l] eqn:E; [destruct Hin|].
  assert (Hhd : In (d', m', y', r') (matches_dmY (d ++ py "." ++ m ++ py "." ++ y)))
    by (rewrite E; left; reflexivity).
  apply in_matches_dmY in Hhd. destruct Hhd as (Ed & Hd' & Hm' & Hy').
  apply first_dot_unique in Ed; auto using day_text_no_dot.
  destruct Ed as [<- Em].
  apply first_dot_unique in Em; auto using month_text_no_dot.
  destruct Em as [<- Ey].
  apply year_text_length in Hy, Hy'.
  destruct y as [|? [|? [|? [|? [|]]]]]; try discriminate.
  destruct y' as [|? [|? [|? [|? [|]]]]]; try discriminate.
  injection Ey as <- <- <- <- <-. reflexivity.
Qed.

Lemma match_dmY_Some (data d m y r : str) :
  match_dmY data = Some (d, m, y, r) ->
  data = d ++ py "." ++ m ++ py "." ++ y ++ r
  /\ day_text d = true /\ month_text m = true /\ year_text y = true.
Proof.
  unfold match_dmY. intros H. apply in_matches_dmY.
  destruct (matches_dmY data); [discriminate|].
  injection H as ->. left. reflexivity.
Qed.

(** ** [int] on the fields *)

Lemma ranges_apart_spec (t1 t2 : list (N * N)) (c : char) :
  ranges_apart t1 t2 = true -> in_ranges t1 c = true -> in_ranges t2 c = false.
Proof.
  intros A H1. destruct (in_ranges t2 c) eqn:H2; [|reflexivity].
  apply in_ranges_iff in H1, H2.
  destruct H1 as (l1 & h1 & I1 & B1), H2 as (l2 & h2 & I2 & B2).
  unfold ranges_apart in A. rewrite forallb_forall in A.
  specialize (A _ I1). rewrite forallb_forall in A. specialize (A _ I2).
  simpl in A. apply orb_true_iff in A. destruct A as [A|A];
    apply N.ltb_lt in A; lia.
Qed.

Lemma decimal_not_space (c : char) :
  char_isdecimal c = true -> char_isspace c = false.
Proof. apply ranges_apart_spec. vm_compute. reflexivity. Qed.

Lemma decimal_value_Some (c : char) :
  char_isdecimal c = true ->
  exists v, decimal_value c = Some v /\ 0 <= v <= 9.
Proof.
  unfold char_isdecimal, in_ranges, decimal_value. intros H.
  destruct (find _ decimal_ranges) as [r|] eqn:F.
  - eexists. split; [reflexivity|].
    pose proof (N.mod_upper_bound (c - fst r) 10 ltac:(discriminate)) as U.
    remember ((c - fst r) mod 10)%N as x. lia.
  - apply existsb_exists in H. destruct H as (r & Hin & Hr).
    pose proof (find_none _ _ F r Hin) as N. cbv beta in N. congruence.
Qed.

Lemma int_digits_fold (s : str) (acc : Z) :
  forallb char_isdecimal s = true ->
  int_digits acc s = Some (fold_left digit_step s acc).
Proof.
  revert acc. induction s as [|c s IH]; simpl; intros acc H; [reflexivity|].
  apply andb_true_iff in H. destruct H as [Hc Hs].
  destruct (decimal_value_Some c Hc) as (v & E & _).
  unfold digit_step at 2. rewrite E. apply IH, Hs.
Qed.

Lemma int_decimal (s : str) :
  s <> [] -> forallb char_isdecimal s = true -> int s = Ok (number_of s).
Proof.
  intros Hne H. unfold int. destruct s as [|c s]; [contradiction|].
  assert (Hc : char_isdecimal c = true)
    by (simpl in H; apply andb_true_iff in H; tauto).
  cbn [lstrip]. rewrite (decimal_not_space c Hc).
  rewrite (int_digits_fold _ 0 H). reflexivity.
Qed.

Lemma in_range_decimal (lo hi : ascii) (c : char) :
  (48 <=? chr lo)%N = true -> (chr hi <=? 57)%N = true ->
  in_range lo hi c = true -> char_isdecimal c = true.
Proof.
  unfold in_range. intros Hlo Hhi H. apply ascii_digit_isdecimal.
  unfold ascii_digit. apply andb_true_iff in H. destruct H as [H1 H2].
  apply N.leb_le in Hlo, Hhi, H1, H2. apply andb_true_iff.
  split; apply N.leb_le; lia.
Qed.

Lemma int_blank (c : char) :
  in_range "1" "9" c = true -> int [32%N; c] = Ok (number_of [32%N; c]).
Proof.
  intros H. apply in_range_decimal in H; [|reflexivity..].
  unfold int. cbn [lstrip]. change (char_isspace 32%N) with true. cbv iota.
  rewrite (decimal_not_space c H).
  rewrite (int_digits_fold [c] 0) by (simpl; rewrite H; reflexivity).
  reflexivity.
Qed.

Lemma int_day (d : str) : day_text d = true -> int d = Ok (number_of d).
Proof.
  destruct d as [|c1 [|c2 [|]]]; unfold day_text; try discriminate.
  - intros H. apply in_range_decimal in H; [|reflexivity..].
    apply int_decimal; [discriminate|]. simpl. rewrite H. reflexivity.
  - intros H. split_orb H; apply andb_true_iff in H; destruct H as [H1 H2].
    + apply N.eqb_eq in H1. subst c1.
      apply in_range_decimal in H2; [|reflexivity..].
      apply int_decimal; [discriminate|]. simpl. rewrite H2. reflexivity.
    + apply in_range_decimal in H1; [|reflexivity..].
      apply int_decimal; [discriminate|]. simpl. rewrite H1, H2. reflexivity.
    + apply N.eqb_eq in H1. subst c1.
      apply in_range_decimal in H2; [|reflexivity..].
      apply int_decimal; [discriminate|]. simpl. rewrite H2. reflexivity.
    + apply N.eqb_eq in H1. subst c1. apply int_blank. exact H2.
Qed.

Lemma int_month (m : str) : month_text m = true -> int m = Ok (number_of m).
Proof.
  destruct m as [|c1 [|c2 [|]]]; unfold month_text; try discriminate.
  - intros H. apply in_range_decimal in H; [|reflexivity..].
    apply int_decimal; [discriminate|]. simpl. rewrite H. reflexivity.
  - intros H. split_orb H; apply andb_true_iff in H; destruct H as [H1 H2];
      apply N.eqb_eq in H1; subst c1;
      (apply in_range_decimal in H2; [|reflexivity..]);
      (apply int_decimal; [discriminate|]); simpl; rewrite H2; reflexivity.
Qed.

Lemma int_year (y : str) : year_text y = true -> int y = Ok (number_of y).
Proof.
  intros H. pose proof (year_text_length y H) as L.
  unfold year_text in H. apply andb_true_iff in H. destruct H as [_ H].
  apply int_decimal; [|exact H]. intros ->. discriminate.
Qed.

(** What [strptime] accepts, and the date it returns. *)
Lemma strptime_dmY_Ok (data : str) (dt : date) :
  strptime_dmY data = Ok dt <->
  exists d m y,
    data = d ++ py "." ++ m ++ py "." ++ y
    /\ day_text d = true /\ month_text m = true /\ year_text y = true
    /\ valid_date (mkdate (number_of y) (number_of m) (number_of d))
    /\ dt = mkdate (number_of y) (number_of m) (number_of d).
Proof.
  unfold strptime_dmY. split.
  - destruct (match_dmY data) as [[[[d m] y] r]|] eqn:M; [|discriminate].
    apply match_dmY_Some in M. destruct M as (-> & Hd & Hm & Hy).
    destruct r as [|c r]; [|discriminate]. cbn [len List.length Z.of_nat Z.eqb negb].
    rewrite (int_day d Hd), (int_month m Hm), (int_year y Hy). cbn [bind].
    intros H. apply date_new_Ok in H. destruct H as [-> V].
    exists d, m, y. rewrite app_nil_r. auto 10.
  - intros (d & m & y & -> & Hd & Hm & Hy & V & ->).
    rewrite (match_dmY_fields d m y Hd Hm Hy).
    cbn [len List.length Z.of_nat Z.eqb negb].
    rewrite (int_day d Hd), (int_month m Hm), (int_year y Hy). cbn [bind].
    apply date_new_valid. exact V.
Qed.

(** ** Birthday *)

Lemma decimal_value_ascii (c : char) :
  ascii_digit c = true -> decimal_value c = Some (Z.of_N c - 48).
Proof.
  unfold ascii_digit, decimal_value, decimal_ranges. intros H.
  cbn [find fst snd]. change 0x30%N with 48%N. change 0x39%N with 57%N.
  rewrite H. apply andb_true_iff in H. destruct H as [H1 H2].
  apply N.leb_le in H1, H2. cbn [fst]. rewrite N.mod_small by lia.
  f_equal. lia.
Qed.

Lemma number_of_two (c1 c2 : char) :
  ascii_digit c1 = true -> ascii_digit c2 = true ->
  number_of [c1; c2] = 10 * (Z.of_N c1 - 48) + (Z.of_N c2 - 48).
Proof.
  intros H1 H2. unfold number_of. cbn [fold_left]. unfold digit_step.
  rewrite (decimal_value_ascii c1 H1), (decimal_value_ascii c2 H2). lia.
Qed.

Lemma days_in_month_le_31 (y m : Z) : 1 <= m <= 12 -> _days_in_month y m <= 31.
Proof.
  intros Hm. unfold _days_in_month.
  month_cases m; destruct (_is_leap y); vm_compute; discriminate.
Qed.

Ltac decide_comparisons :=
  repeat match goal with
    | |- context [(?a <=? ?b)%N] =>
        first [ replace (a <=? b)%N with true by (symmetry; apply N.leb_le; lia)
              | replace (a <=? b)%N with false by (symmetry; apply N.leb_gt; lia) ]
    | |- context [(?a =? ?b)%N] =>
        first [ replace (a =? b)%N with true by (symmetry; apply N.eqb_eq; lia)
              | replace (a =? b)%N with false by (symmetry; apply N.eqb_neq; lia) ]
    end.

Lemma ascii_digit_bounds (c : char) :
  ascii_digit c = true -> (48 <= c <= 57)%N.
Proof.
  unfold ascii_digit. intros H. apply andb_true_iff in H.
  destruct H as [H1 H2]. apply N.leb_le in H1, H2. lia.
Qed.

Lemma day_text_two_digits (c1 c2 : char) :
  ascii_digit c1 = true -> ascii_digit c2 = true ->
  1 <= number_of [c1; c2] <= 31 -> day_text [c1; c2] = true.
Proof.
  intros H1 H2. rewrite (number_of_two c1 c2 H1 H2). intros B.
  pose proof (ascii_digit_isdecimal c2 H2) as D2.
  apply ascii_digit_bounds in H1, H2.
  unfold day_text, char_eqb, in_range. rewrite D2.
  change (chr "0") with 48%N. change (chr "1") with 49%N.
  change (chr "2") with 50%N. change (chr "3") with 51%N.
  change (chr "9") with 57%N. change (chr " ") with 32%N.
  assert (C : (c1 = 48 \/ c1 = 49 \/ c1 = 50 \/ c1 = 51)%N) by lia.
  destruct C as [->|[->|[->| ->]]]; decide_comparisons; reflexivity.
Qed.

Lemma month_text_two_digits (c1 c2 : char) :
  ascii_digit c1 = true -> ascii_digit c2 = true ->
  1 <= number_of [c1; c2] <= 12 -> month_text [c1; c2] = true.
Proof.
  intros H1 H2. rewrite (number_of_two c1 c2 H1 H2). intros B.
  apply ascii_digit_bounds in H1, H2.
  unfold month_text, char_eqb, in_range.
  change (chr "0") with 48%N. change (chr "1") with 49%N.
  change (chr "2") with 50%N. change (chr "9") with 57%N.
  assert (C : (c1 = 48 \/ c1 = 49)%N) by lia.
  destruct C as [->| ->]; decide_comparisons; reflexivity.
Qed.

(** C4, as amended: [Birthday(raw)] succeeds exactly when [raw] is a day, a
    dot, a month, a dot and a year as [strptime] reads them (the day on one
    or two digits, or a blank and a digit; the month on one or two digits;
    the year on four decimal digits) that make a real calendar date of the
    years 1 to 9999; every other string raises [InvalidDateFormat].  In
    particular every real date written in the exact format [DD.MM.YYYY] is
    accepted. *)
Theorem Birthday_init_spec (raw : str) :
  (Birthday_init raw = Ok (mkField raw) <->
   exists d m y,
     raw = d ++ py "." ++ m ++ py "." ++ y
     /\ day_text d = true /\ month_text m = true /\ year_text y = true
     /\ valid_date (mkdate (number_of y) (number_of m) (number_of d)))
  /\ (Birthday_init raw = Ok (mkField raw)
      \/ Birthday_init raw = Raise InvalidDateFormat)
  /\ (exact_DDMMYYYY raw = true ->
      valid_date (mkdate (number_of (skipn 6 raw))
                         (number_of (firstn 2 (skipn 3 raw)))
                         (number_of (firstn 2 raw))) ->
      Birthday_init raw = Ok (mkField raw)).
Proof.
  assert (Hiff : Birthday_init raw = Ok (mkField raw) <->
    exists d m y,
      raw = d ++ py "." ++ m ++ py "." ++ y
      /\ day_text d = true /\ month_text m = true /\ year_text y = true
      /\ valid_date (mkdate (number_of y) (number_of m) (number_of d))).
  { unfold Birthday_init. split.
    - destruct (strptime_dmY raw) as [dt|] eqn:E; [|discriminate].
      intros _. apply strptime_dmY_Ok in E.
      destruct E as (d & m & y & H). exists d, m, y. tauto.
    - intros (d & m & y & E & Hd & Hm & Hy & V).
      assert (S : strptime_dmY raw
                  = Ok (mkdate (number_of y) (number_of m) (number_of d)))
        by (apply strptime_dmY_Ok; exists d, m, y; auto 10).
      rewrite S. reflexivity. }
  split; [exact Hiff|]. split; [apply Birthday_init_cases|].
  intros X V. apply Hiff.
  destruct raw as [|d1 [|d2 [|p1 [|m1 [|m2 [|p2 [|y1 [|y2 [|y3 [|y4 [|]]]]]]]]]]];
    try discriminate.
  unfold exact_DDMMYYYY in X. cbn [forallb] in X.
  rewrite !andb_true_iff in X.
  destruct X as (((Hd1 & Hd2 & Hm1 & Hm2 & Hy1 & Hy2 & Hy3 & Hy4 & _) & P1) & P2).
  apply N.eqb_eq in P1, P2. subst p1 p2.
  cbn [skipn firstn] in V. destruct V as (Vy & Vm & Vd). cbn [year month day] in *.
  pose proof (days_in_month_le_31 (number_of [y1; y2; y3; y4]) _ Vm).
  exists [d1; d2], [m1; m2], [y1; y2; y3; y4].
  split; [reflexivity|].
  split; [apply day_text_two_digits; auto; lia|].
  split; [apply month_text_two_digits; auto|].
  split; [|exact (conj Vy (conj Vm Vd))].
  unfold year_text. cbn [forallb].
  rewrite !ascii_digit_isdecimal by assumption. reflexivity.
Qed.

(** C4, as stated, fails: [1.6.2020] is not in the format [DD.MM.YYYY], and
    [Birthday] accepts it. *)
Lemma Birthday_init_accepts_short_fields :
  Birthday_init (py "1.6.2020") = Ok (mkField (py "1.6.2020"))
  /\ exact_DDMMYYYY (py "1.6.2020") = false.
Proof. split; vm_compute; reflexivity. Qed.

(** ** The upcoming birthdays *)

Lemma int_Raise (s : str) (e : exception) :
  int s = Raise e -> exists msg, e = ValueError msg.
Proof.
  unfold int. destruct (lstrip s) as [|c l]; [intros E; injection E as <-; eauto|].
  destruct (int_digits 0 (c :: l)); [discriminate|].
  intros E. injection E as <-. eauto.
Qed.

Lemma strptime_dmY_Raise (data : str) (e : exception) :
  strptime_dmY data = Raise e -> exists msg, e = ValueError msg.
Proof.
  unfold strptime_dmY.
  destruct (match_dmY data) as [[[[d m] y] r]|];
    [|intros E; injection E as <-; eauto].
  destruct (negb (len r =? 0)); [intros E; injection E as <-; eauto|].
  destruct (int d) as [d'|e1] eqn:E1;
    [|cbn [bind]; intros E; injection E as <-; exact (int_Raise _ _ E1)].
  destruct (int m) as [m'|e2] eqn:E2;
    [|cbn [bind]; intros E; injection E as <-; exact (int_Raise _ _ E2)].
  destruct (int y) as [y'|e3] eqn:E3;
    [|cbn [bind]; intros E; injection E as <-; exact (int_Raise _ _ E3)].
  cbn [bind]. apply date_new_Raise.
Qed.

(** The shift of a week-end day never leaves the calendar: the last day,
    31.12.9999, is a Friday. *)
Lemma weekend_shift (cand : date) :
  valid_date cand ->
  exists shifted,
    (if weekday cand =? 5 then date_add cand (mktimedelta 2)
     else if weekday cand =? 6 then date_add cand (mktimedelta 1)
     else Ok cand) = Ok shifted
    /\ valid_date shifted
    /\ toordinal shifted = spec_shift (toordinal cand).
Proof.
  intros V. pose proof (toordinal_bounds cand V) as B.
  unfold weekday, spec_shift, _MAXORDINAL in *.
  destruct (Z.eqb_spec ((toordinal cand + 6) mod 7) 5) as [H5|H5];
    [|destruct (Z.eqb_spec ((toordinal cand + 6) mod 7) 6) as [H6|H6]].
  - apply date_add_Ok. unfold _MAXORDINAL. Z.div_mod_to_equations. lia.
  - apply date_add_Ok. unfold _MAXORDINAL. Z.div_mod_to_equations. lia.
  - exists cand. auto.
Qed.

Lemma spec_text_toordinal (d : date) :
  valid_date d -> spec_text (toordinal d) = strftime_dmY d.
Proof.
  intros V. unfold spec_text. rewrite (ord2ymd_toordinal d V).
  destruct d; reflexivity.
Qed.

Lemma spec_is_date_valid (y m d : Z) :
  spec_is_date y m d = true <-> valid_date (mkdate y m d).
Proof.
  unfold spec_is_date, valid_date. cbn [year month day].
  rewrite !andb_true_iff, !Z.leb_le. tauto.
Qed.

Lemma spec_is_date_new (y m d : Z) :
  spec_is_date y m d = is_ok (date_new y m d).
Proof.
  destruct (date_new y m d) as [x|e] eqn:E; cbn [is_ok].
  - apply date_new_Ok in E. destruct E as [-> V].
    apply spec_is_date_valid. exact V.
  - destruct (spec_is_date y m d) eqn:S; [|reflexivity].
    apply spec_is_date_valid, date_new_valid in S. congruence.
Qed.

(** An iteration on a record on which lines 119 and 128 raise nothing adds
    to the list what the specification says. *)
Lemma upcoming_step_spec (today end_date : date) (result : list Upcoming)
    (rec : Contact) :
  valid_date today -> valid_date end_date ->
  toordinal end_date = toordinal today + 6 ->
  rollover_safe today rec = true ->
  upcoming_step today end_date result rec
  = Ok (result ++ spec_upcoming today rec).
Proof.
  intros Vt Ve Ee R.
  unfold upcoming_step, spec_upcoming, rollover_safe,
    spec_resulting_date_valid in *.
  destruct (birthday rec) as [b|]; [|rewrite app_nil_r; reflexivity].
  destruct (strptime_dmY (value b)) as [bday|]; [|discriminate].
  cbn [bind]. rewrite !spec_is_date_new.
  destruct (date_new (year today) (month bday) (day bday)) as [c0|e] eqn:E0.
  2:{ destruct (date_new_Raise _ _ _ _ E0) as [msg ->]. cbn [is_ok andb].
      rewrite app_nil_r. reflexivity. }
  apply date_new_Ok in E0. destruct E0 as [-> V0]. cbn [is_ok andb].
  assert (Hcand : exists cand,
    (if date_lt (mkdate (year today) (month bday) (day bday)) today
     then date_new (year today + 1) (month bday) (day bday)
     else Ok (mkdate (year today) (month bday) (day bday))) = Ok cand
    /\ valid_date cand
    /\ toordinal cand = spec_candidate today (month bday) (day bday)
    /\ (if _ymd2ord (year today) (month bday) (day bday) <? toordinal today
        then is_ok (date_new (year today + 1) (month bday) (day bday))
        else true) = true).
  { unfold spec_candidate.
    rewrite date_lt_toordinal in * by (apply valid_day_in_month; assumption).
    change (toordinal (mkdate (year today) (month bday) (day bday)))
      with (_ymd2ord (year today) (month bday) (day bday)) in *.
    destruct (_ymd2ord (year today) (month bday) (day bday) <? toordinal today).
    - destruct (date_new (year today + 1) (month bday) (day bday)) as [c1|] eqn:E1;
        [|discriminate].
      apply date_new_Ok in E1. destruct E1 as [-> V1]. eauto.
    - eauto. }
  destruct Hcand as (cand & -> & Vc & Ec & ->). cbn [bind].
  destruct (weekend_shift cand Vc) as (shifted & -> & Vs & Es). cbn [bind].
  rewrite !date_le_toordinal by (apply valid_day_in_month; assumption).
  rewrite Ee, Es, Ec, <- Ec, <- Es, (spec_text_toordinal shifted Vs).
  destruct ((toordinal today <=? toordinal shifted)
            && (toordinal shifted <=? toordinal today + 6));
    [reflexivity | rewrite app_nil_r; reflexivity].
Qed.

(** An iteration on any other record raises [ValueError]. *)
Lemma upcoming_step_unsafe (today end_date : date) (result : list Upcoming)
    (rec : Contact) :
  rollover_safe today rec = false ->
  exists msg, upcoming_step today end_date result rec = Raise (ValueError msg).
Proof.
  unfold upcoming_step, rollover_safe.
  destruct (birthday rec) as [b|]; [|discriminate].
  destruct (strptime_dmY (value b)) as [bday|e] eqn:Hs.
  2:{ intros _. destruct (strptime_dmY_Raise _ _ Hs) as [msg ->].
      exists msg. reflexivity. }
  cbn [bind].
  destruct (date_new (year today) (month bday) (day bday)) as [c0|e];
    [|discriminate].
  destruct (date_lt c0 today); [|discriminate].
  destruct (date_new (year today + 1) (month bday) (day bday)) as [c1|e] eqn:E1;
    [discriminate|].
  intros _. destruct (date_new_Raise _ _ _ _ E1) as [msg ->].
  exists msg. reflexivity.
Qed.

Lemma upcoming_loop_spec (today end_date : date) (recs : list Contact) :
  valid_date today -> valid_date end_date ->
  toordinal end_date = toordinal today + 6 ->
  forallb (rollover_safe today) recs = true ->
  forall result,
    upcoming_loop today end_date result recs
    = Ok (result ++ flat_map (spec_upcoming today) recs).
Proof.
  intros Vt Ve Ee. induction recs as [|rec recs IH]; simpl; intros R result.
  - rewrite app_nil_r. reflexivity.
  - apply andb_true_iff in R. destruct R as [R1 R2].
    rewrite (upcoming_step_spec _ _ _ _ Vt Ve Ee R1). cbn [bind].
    rewrite (IH R2). rewrite app_assoc. reflexivity.
Qed.

(** The loop stops at the first record on which an iteration raises. *)
Lemma upcoming_loop_unsafe (today end_date : date) (recs : list Contact) :
  valid_date today -> valid_date end_date ->
  toordinal end_date = toordinal today + 6 ->
  forallb (rollover_safe today) recs = false ->
  forall result,
    exists msg, upcoming_loop today end_date result recs
                = Raise (ValueError msg).
Proof.
  intros Vt Ve Ee. induction recs as [|rec recs IH]; simpl; intros R result;
    [discriminate|].
  destruct (rollover_safe today rec) eqn:R1.
  - rewrite (upcoming_step_spec _ _ _ _ Vt Ve Ee R1). cbn [bind].
    apply IH. exact R.
  - destruct (upcoming_step_unsafe today end_date result rec R1) as [msg ->].
    exists msg. reflexivity.
Qed.

Lemma days_in_month_other_year (y y' m d : Z) :
  1 <= m <= 12 -> 1 <= d <= _days_in_month y m -> (m = 2 -> d <> 29) ->
  1 <= d <= _days_in_month y' m.
Proof.
  unfold _days_in_month. intros Hm.
  month_cases m; destruct (_is_leap y), (_is_leap y'); vm_compute (item _ _);
    cbn [andb Z.eqb Z.gtb Z.compare Pos.compare Pos.compare_cont Pos.eqb];
    lia.
Qed.

(** The birthday of a record the program built is a text [strptime] reads. *)
Lemma reachable_birthday_parses (rec : Contact) (b : Birthday) :
  reachable rec -> birthday rec = Some b ->
  exists bday, strptime_dmY (value b) = Ok bday /\ valid_date bday.
Proof.
  intros Hr Hb. destruct (reachable_well_formed rec Hr) as (_ & _ & H).
  specialize (H b Hb). unfold Birthday_init in H.
  destruct (strptime_dmY (value b)) as [bday|] eqn:E; [|discriminate].
  exists bday. split; [reflexivity|].
  apply strptime_dmY_Ok in E. destruct E as (d & m & y & _ & _ & _ & _ & V & ->).
  exact V.
Qed.

(** Before the year 9999, every birthday but a 29 February makes a date in
    the year it is reinterpreted in. *)
Lemma rollover_safe_but_leap_day (today : date) (rec : Contact)
    (b : Birthday) (bday : date) :
  valid_date today -> year today < MAXYEAR ->
  birthday rec = Some b ->
  strptime_dmY (value b) = Ok bday -> valid_date bday ->
  (month bday = 2 -> day bday <> 29) ->
  rollover_safe today rec = true.
Proof.
  intros (Hy & _) Hlt Hb Hs (_ & Hm & Hd) Hleap.
  unfold rollover_safe. rewrite Hb, Hs.
  rewrite date_new_valid
    by (split; [exact Hy | split; [exact Hm |
          exact (days_in_month_other_year _ (year today) _ _ Hm Hd Hleap)]]).
  destruct (date_lt _ today); [|reflexivity].
  rewrite date_new_valid; [reflexivity|].
  unfold valid_date, MINYEAR, MAXYEAR in *.
  split; [simpl; lia | split; [exact Hm |
    exact (days_in_month_other_year _ (year today + 1) _ _ Hm Hd Hleap)]].
Qed.

(** X25: when today plus six days is still in the calendar,
    [get_upcoming_birthdays] does one of two things.  If on no record line
    119 or line 128 raises, it returns, record after record in the order of
    the book, the name and the shifted date of those whose shifted date is
    in the window from today to today plus six days, a record whose month
    and day make no date in today's year being passed over.  Otherwise it
    raises [ValueError] and returns no list. *)
Theorem get_upcoming_birthdays_window (clock : Clock) (book : AddressBook) :
  valid_date (date_today clock) ->
  toordinal (date_today clock) + 6 <= _MAXORDINAL ->
  (forallb (rollover_safe (date_today clock)) (values (data book)) = true ->
   get_upcoming_birthdays clock book
   = Ok (flat_map (spec_upcoming (date_today clock)) (values (data book))))
  /\ (forallb (rollover_safe (date_today clock)) (values (data book)) = false ->
      exists msg,
        get_upcoming_birthdays clock book = Raise (ValueError msg)).
Proof.
  intros Vt Hmax. unfold get_upcoming_birthdays.
  pose proof (toordinal_bounds _ Vt) as B.
  destruct (date_add_Ok (date_today clock) 6 ltac:(lia)) as (e & -> & Ve & Ee).
  cbn [bind]. split; intros R.
  - rewrite (upcoming_loop_spec _ _ _ Vt Ve Ee R). reflexivity.
  - apply (upcoming_loop_unsafe _ _ _ Vt Ve Ee R).
Qed.

(** X25 at the example of the specification: today is Monday 10.06.2024; the
    birthday 16.06 falls on a Sunday, moves to 17.06.2024 and is left out;
    the birthday 12.06 falls on a Wednesday, stays and is listed. *)
Lemma get_upcoming_birthdays_window_witness :
  weekday (mkdate 2024 6 10) = 0
  /\ weekday (mkdate 2024 6 16) = 6
  /\ weekday (mkdate 2024 6 12) = 2
  /\ spec_text (spec_shift (spec_candidate (mkdate 2024 6 10) 6 16))
     = py "17.06.2024"
  /\ spec_upcoming (mkdate 2024 6 10)
       (mkContact (mkField (py "Ann")) [] (Some (mkField (py "16.06.2020"))))
     = []
  /\ get_upcoming_birthdays (mkClock (mkdate 2024 6 10) 0)
       (mkAddressBook
          [(py "Ann", mkContact (mkField (py "Ann")) []
                        (Some (mkField (py "16.06.2020"))));
           (py "Bob", mkContact (mkField (py "Bob")) []
                        (Some (mkField (py "12.06.2020"))))])
     = Ok [mkUpcoming (py "Bob") (py "12.06.2024")].
Proof.
  repeat (split; [vm_compute; reflexivity|]).
  rewrite (proj1 (get_upcoming_birthdays_window
                    (mkClock (mkdate 2024 6 10) 0)
                    (mkAddressBook
                       [(py "Ann", mkContact (mkField (py "Ann")) []
                                     (Some (mkField (py "16.06.2020"))));
                        (py "Bob", mkContact (mkField (py "Bob")) []
                                     (Some (mkField (py "12.06.2020"))))])
                    ltac:(unfold valid_date, MINYEAR, MAXYEAR, date_today;
                          cbn [year month day clock_date];
                          change (_days_in_month 2024 6) with 30; lia)
                    ltac:(vm_compute; discriminate))).
  - vm_compute. reflexivity.
  - vm_compute. reflexivity.
Defined.

(** In a year without a 29 February, a birthday on that day is passed over
    by the code and by the specification alike: on 10.06.2023 Ann, born on
    29.02.2000, is left out and Bob, born on 12.06, is listed; on 27.02.2023
    the specification does not list Ann under 01.03.2023 either. *)
Lemma get_upcoming_birthdays_window_skips :
  rollover_safe (mkdate 2023 6 10)
    (mkContact (mkField (py "Ann")) [] (Some (mkField (py "29.02.2000"))))
  = true
  /\ spec_upcoming (mkdate 2023 6 10)
       (mkContact (mkField (py "Ann")) [] (Some (mkField (py "29.02.2000"))))
     = []
  /\ spec_upcoming (mkdate 2023 2 27)
       (mkContact (mkField (py "Ann")) [] (Some (mkField (py "29.02.2000"))))
     = []
  /\ get_upcoming_birthdays (mkClock (mkdate 2023 2 27) 0)
       (mkAddressBook
          [(py "Ann", mkContact (mkField (py "Ann")) []
                        (Some (mkField (py "29.02.2000"))))])
     = Ok []
  /\ get_upcoming_birthdays (mkClock (mkdate 2023 6 10) 0)
       (mkAddressBook
          [(py "Ann", mkContact (mkField (py "Ann")) []
                        (Some (mkField (py "29.02.2000"))));
           (py "Bob", mkContact (mkField (py "Bob")) []
                        (Some (mkField (py "12.06.2020"))))])
     = Ok [mkUpcoming (py "Bob") (py "12.06.2023")].
Proof. repeat split; vm_compute; reflexivity. Qed.

(** A birthday whose month and day make no date in today's year is passed
    over: the loop goes on with the list as it was. *)
Lemma upcoming_step_skips (today end_date : date) (result : list Upcoming)
    (rec : Contact) (b : Birthday) (bday : date) :
  birthday rec = Some b ->
  strptime_dmY (value b) = Ok bday ->
  is_ok (date_new (year today) (month bday) (day bday)) = false ->
  upcoming_step today end_date result rec = Ok result.
Proof.
  intros Hb Hs Hn. unfold upcoming_step. rewrite Hb, Hs. cbn [bind].
  destruct (date_new (year today) (month bday) (day bday)) as [c|e] eqn:E;
    [discriminate|].
  destruct (date_new_Raise _ _ _ _ E) as [msg ->]. reflexivity.
Qed.

(** A birthday that is passed in today's year and makes no date in the next
    year is not passed over: the exception of the second [datetime.date]
    leaves the loop. *)
Lemma upcoming_step_rollover_raises (today end_date : date)
    (result : list Upcoming) (rec : Contact) (b : Birthday)
    (bday candidate : date) (e : exception) :
  birthday rec = Some b ->
  strptime_dmY (value b) = Ok bday ->
  date_new (year today) (month bday) (day bday) = Ok candidate ->
  date_lt candidate today = true ->
  date_new (year today + 1) (month bday) (day bday) = Raise e ->
  upcoming_step today end_date result rec = Raise e.
Proof.
  intros Hb Hs Hc Hlt Hn. unfold upcoming_step.
  rewrite Hb, Hs. cbn [bind]. rewrite Hc, Hlt, Hn. reflexivity.
Qed.

(** So it is for every birthday on a 29 February, in every leap year once
    that day is passed. *)
Lemma upcoming_step_leap_day_raises (today end_date : date)
    (result : list Upcoming) (rec : Contact) (b : Birthday) (bday : date) :
  valid_date today -> year today < MAXYEAR ->
  _is_leap (year today) = true ->
  date_lt (mkdate (year today) 2 29) today = true ->
  birthday rec = Some b ->
  strptime_dmY (value b) = Ok bday -> month bday = 2 -> day bday = 29 ->
  upcoming_step today end_date result rec
  = Raise (ValueError (py "day is out of range for month")).
Proof.
  intros (Hy & _) Hmax Hleap Hlt Hb Hs Hm Hd.
  apply (upcoming_step_rollover_raises today end_date result rec b bday
           (mkdate (year today) 2 29)); try assumption.
  - rewrite Hm, Hd. apply date_new_valid.
    unfold valid_date, _days_in_month. cbn [year month day].
    rewrite Hleap. change (2 =? 2) with true. cbn [andb]. lia.
  - rewrite Hm, Hd. unfold date_new, MINYEAR, MAXYEAR in *.
    destruct (Z.leb_spec 1 (year today + 1)); [|lia].
    destruct (Z.leb_spec (year today + 1) 9999); [|lia].
    cbn [andb negb]. change ((1 <=? 2) && (2 <=? 12)) with true.
    cbn [negb]. unfold _days_in_month.
    assert (L : _is_leap (year today + 1) = false).
    { unfold _is_leap in *. apply andb_true_iff in Hleap.
      destruct Hleap as [H4 _]. apply Z.eqb_eq in H4.
      replace ((year today + 1) mod 4 =? 0) with false; [reflexivity|].
      symmetry. apply Z.eqb_neq. Z.div_mod_to_equations. lia. }
    rewrite L. reflexivity.
Qed.

(** C1 fails on the code: on 10.06.2024, for a record whose birthday
    29.02.2000 was set by [add_birthday], the date 29.02.2024 exists and is
    passed, the date 29.02.2025 does not exist, and
    [get_upcoming_birthdays] raises [ValueError] instead of passing the
    record over; a year earlier, when 29.02.2023 does not exist, the same
    record is passed over. *)
Theorem leap_day_rollover_raises :
  add_birthday (py "29.02.2000") (mkContact (mkField (py "Ann")) [] None)
  = (Ok tt, mkContact (mkField (py "Ann")) []
              (Some (mkField (py "29.02.2000"))))
  /\ get_upcoming_birthdays (mkClock (mkdate 2024 6 10) 0)
       (add_record
          (mkContact (mkField (py "Ann")) []
             (Some (mkField (py "29.02.2000"))))
          (mkAddressBook []))
     = Raise (ValueError (py "day is out of range for month"))
  /\ get_upcoming_birthdays (mkClock (mkdate 2023 6 10) 0)
       (add_record
          (mkContact (mkField (py "Ann")) []
             (Some (mkField (py "29.02.2000"))))
          (mkAddressBook []))
     = Ok [].
Proof. repeat split; vm_compute; reflexivity. Qed.

(** C2 fails on the code, by the same unguarded line 128: on Friday
    01.03.2024 the birthday 05.03 of Bob is reinterpreted as Tuesday
    05.03.2024, a date in the window from 01.03.2024 to 07.03.2024, and in a
    book that holds Bob alone he is listed.  Once the book holds Ann as
    well, whose birthday is a 29 February, the call raises [ValueError] on
    her record and returns no list: Bob is not included, whether his record
    comes before hers or after it. *)
Theorem upcoming_window_lost_to_rollover :
  weekday (mkdate 2024 3 1) = 4
  /\ weekday (mkdate 2024 3 5) = 1
  /\ date_le (mkdate 2024 3 1) (mkdate 2024 3 5)
     && date_le (mkdate 2024 3 5) (mkdate 2024 3 7) = true
  /\ get_upcoming_birthdays (mkClock (mkdate 2024 3 1) 0)
       (add_record
          (mkContact (mkField (py "Bob")) []
             (Some (mkField (py "05.03.1990"))))
          (mkAddressBook []))
     = Ok [mkUpcoming (py "Bob") (py "05.03.2024")]
  /\ get_upcoming_birthdays (mkClock (mkdate 2024 3 1) 0)
       (add_record
          (mkContact (mkField (py "Ann")) []
             (Some (mkField (py "29.02.2000"))))
          (add_record
             (mkContact (mkField (py "Bob")) []
                (Some (mkField (py "05.03.1990"))))
             (mkAddressBook [])))
     = Raise (ValueError (py "day is out of range for month"))
  /\ get_upcoming_birthdays (mkClock (mkdate 2024 3 1) 0)
       (add_record
          (mkContact (mkField (py "Bob")) []
             (Some (mkField (py "05.03.1990"))))
          (add_record
             (mkContact (mkField (py "Ann")) []
                (Some (mkField (py "29.02.2000"))))
             (mkAddressBook [])))
     = Raise (ValueError (py "day is out of range for month")).
Proof. repeat split; vm_compute; reflexivity. Qed.

(** * More of the program *)

(** ** Record, beyond the claims *)

Lemma find_value_without (v q : str) (l : list Phone) :
  q <> v -> find (has_value q) (without v l) = find (has_value q) l.
Proof.
  intros Hq. induction l as [|y l IH]; simpl; [reflexivity|].
  destruct (str_eqb (value y) v) eqn:E.
  - apply str_eqb_eq in E. unfold has_value at 2.
    replace (str_eqb (value y) q) with false; [reflexivity|].
    symmetry. apply str_eqb_neq. congruence.
  - simpl. destruct (has_value q y); [reflexivity | exact IH].
Qed.

Lemma without_snoc_fresh (v : str) (l : list Phone) :
  ~ In v (map value l) -> without v (l ++ [mkField v]) = l.
Proof.
  induction l as [|y l IH]; simpl; intros H.
  - rewrite str_eqb_refl. reflexivity.
  - destruct (str_eqb (value y) v) eqn:E.
    + apply str_eqb_eq in E. tauto.
    + rewrite IH by tauto. reflexivity.
Qed.

Lemma add_phone_Ok (p : str) (self self' : Contact) :
  add_phone p self = (Ok tt, self') ->
  ~ stored p self /\ Phone_init p = Ok (mkField p)
  /\ self' = mkContact (name self) (phones self ++ [mkField p]) (birthday self).
Proof.
  intros H. destruct (stored_dec p self) as [S|S].
  - rewrite add_phone_duplicate in H by assumption. discriminate.
  - destruct (Phone_init_cases p) as [E|E].
    + rewrite add_phone_appends in H by assumption. injection H as <-. auto.
    + rewrite add_phone_invalid in H by assumption. discriminate.
Qed.

(** X1: after a call of [add_phone] that returned, the phone is found, the
    phones found before are found as before, there is one phone more, and a
    second call with the same string raises [DuplicatePhone] and changes
    nothing. *)
Theorem add_phone_then_found (self self' : Contact) (p : str) :
  add_phone p self = (Ok tt, self') ->
  find_phone p self' = Some (mkField p)
  /\ (forall q, q <> p -> find_phone q self' = find_phone q self)
  /\ List.length (phones self') = S (List.length (phones self))
  /\ add_phone p self'
     = (Raise (DuplicatePhone p (value (name self))), self').
Proof.
  intros H. apply add_phone_Ok in H. destruct H as (Hn & Hi & ->).
  assert (Hf : find_phone p
                 (mkContact (name self) (phones self ++ [mkField p])
                            (birthday self)) = Some (mkField p)).
  { unfold find_phone. simpl. rewrite find_value_app.
    apply find_phone_None in Hn. unfold find_phone in Hn. rewrite Hn.
    simpl. unfold has_value. simpl. rewrite str_eqb_refl. reflexivity. }
  split; [exact Hf|]. split; [|split].
  - intros q Hq. unfold find_phone. simpl. rewrite find_value_app.
    destruct (find (has_value q) (phones self)); [reflexivity|].
    simpl. unfold has_value. simpl.
    replace (str_eqb p q) with false; [reflexivity|].
    symmetry. apply str_eqb_neq. congruence.
  - simpl. rewrite length_app. simpl. lia.
  - unfold add_phone. rewrite Hf. reflexivity.
Qed.

(** X1 at a record with one phone. *)
Lemma add_phone_then_found_witness :
  find_phone (py "1234567890")
    (mkContact (mkField (py "Ann")) [mkField (py "1234567890")] None)
  = Some (mkField (py "1234567890"))
  /\ add_phone (py "1234567890")
       (mkContact (mkField (py "Ann")) [mkField (py "1234567890")] None)
     = (Raise (DuplicatePhone (py "1234567890") (py "Ann")),
        mkContact (mkField (py "Ann")) [mkField (py "1234567890")] None).
Proof.
  destruct (add_phone_then_found
              (mkContact (mkField (py "Ann")) [] None)
              (mkContact (mkField (py "Ann")) [mkField (py "1234567890")] None)
              (py "1234567890") eq_refl) as (H1 & _ & _ & H4).
  split; [exact H1 | exact H4].
Defined.

(** X2: in a record the program built, [remove_phone] of a stored phone
    returns; afterwards that phone is not found, the other phones are found
    as before, and there is one phone less. *)
Theorem remove_phone_then_absent (self : Contact) (p : str) :
  reachable self -> stored p self ->
  exists self',
    remove_phone p self = (Ok tt, self')
    /\ find_phone p self' = None
    /\ (forall q, q <> p -> find_phone q self' = find_phone q self)
    /\ S (List.length (phones self')) = List.length (phones self)
    /\ name self' = name self /\ birthday self' = birthday self.
Proof.
  intros Hr Hs. destruct (reachable_well_formed _ Hr) as (Hnd & _ & _).
  exists (mkContact (name self) (without p (phones self)) (birthday self)).
  split; [apply remove_phone_found; exact Hs|].
  split; [|split; [|split; [|split; reflexivity]]].
  - apply find_phone_None. unfold stored. simpl.
    apply NoDup_without. exact Hnd.
  - intros q Hq. unfold find_phone. simpl. apply find_value_without. exact Hq.
  - simpl. apply length_without. exact Hs.
Qed.

(** X2 at a record with one phone. *)
Lemma remove_phone_then_absent_witness :
  exists self',
    remove_phone (py "1234567890")
      (snd (add_phone (py "1234567890")
              (mkContact (mkField (py "Ann")) [] None))) = (Ok tt, self')
    /\ find_phone (py "1234567890") self' = None.
Proof.
  destruct (remove_phone_then_absent
              (snd (add_phone (py "1234567890")
                      (mkContact (mkField (py "Ann")) [] None)))
              (py "1234567890")) as (self' & H1 & H2 & _).
  - apply reach_add_phone. apply (reach_init (py "Ann")). reflexivity.
  - vm_compute. left. reflexivity.
  - exists self'. auto.
Defined.

(** X3: [add_phone] followed by [remove_phone] of the same string gives
    back the record as it was, the order of its phones included. *)
Theorem add_then_remove_phone (self self' : Contact) (p : str) :
  add_phone p self = (Ok tt, self') ->
  remove_phone p self' = (Ok tt, self).
Proof.
  intros H. apply add_phone_Ok in H. destruct H as (Hn & Hi & ->).
  rewrite remove_phone_found.
  - simpl. rewrite without_snoc_fresh by exact Hn. destruct self; reflexivity.
  - unfold stored. simpl. rewrite map_app, in_app_iff. right. left. reflexivity.
Qed.

(** X3 at a record with one phone, for a second one. *)
Lemma add_then_remove_phone_witness :
  remove_phone (py "0987654321")
    (mkContact (mkField (py "Ann"))
       [mkField (py "1234567890"); mkField (py "0987654321")] None)
  = (Ok tt, mkContact (mkField (py "Ann")) [mkField (py "1234567890")] None).
Proof.
  apply (add_then_remove_phone
           (mkContact (mkField (py "Ann")) [mkField (py "1234567890")] None)
           _ (py "0987654321")).
  reflexivity.
Defined.

(** X4: no method of [Record] changes the name of the record, and none
    changes a birthday that is set. *)
Theorem methods_keep_name_and_birthday (self : Contact) :
  (forall p, name (snd (add_phone p self)) = name self)
  /\ (forall p, name (snd (remove_phone p self)) = name self)
  /\ (forall old new, name (snd (edit_phone old new self)) = name self)
  /\ (forall raw, name (snd (add_birthday raw self)) = name self)
  /\ (forall b, birthday self = Some b ->
      (forall p, birthday (snd (add_phone p self)) = Some b)
      /\ (forall p, birthday (snd (remove_phone p self)) = Some b)
      /\ (forall old new, birthday (snd (edit_phone old new self)) = Some b)
      /\ (forall raw, birthday (snd (add_birthday raw self)) = Some b)).
Proof.
  split; [|split; [|split; [|split]]].
  - intros p. destruct (add_phone_state p self) as [->|(_ & _ & ->)]; reflexivity.
  - intros p. destruct (remove_phone_state p self) as [->| ->]; reflexivity.
  - intros old new.
    destruct (edit_phone_state old new self) as [->|(_ & _ & ->)]; reflexivity.
  - intros raw. destruct (add_birthday_state raw self) as [->|(_ & ->)]; reflexivity.
  - intros b Hb. split; [|split; [|split]].
    + intros p.
      destruct (add_phone_state p self) as [->|(_ & _ & ->)]; exact Hb.
    + intros p. destruct (remove_phone_state p self) as [->| ->]; exact Hb.
    + intros old new.
      destruct (edit_phone_state old new self) as [->|(_ & _ & ->)]; exact Hb.
    + intros raw. unfold add_birthday. rewrite Hb. exact Hb.
Qed.

(** X5: in every record the program built, no phone string is stored
    twice, every stored phone has ten characters that are all digits, and
    the birthday, when set, is a text [strptime] reads as a real date. *)
Theorem reachable_record_invariant (self : Contact) :
  reachable self ->
  NoDup (map value (phones self))
  /\ (forall p, stored p self ->
      len p = 10 /\ Forall (fun c => char_isdigit c = true) p)
  /\ (forall b, birthday self = Some b ->
      exists d, strptime_dmY (value b) = Ok d /\ valid_date d).
Proof.
  intros Hr. destruct (reachable_well_formed _ Hr) as (Hnd & Hph & _).
  split; [exact Hnd|]. split.
  - intros p Hp. unfold stored in Hp. apply in_map_iff in Hp.
    destruct Hp as (ph & <- & Hin). rewrite Forall_forall in Hph.
    specialize (Hph ph Hin). rewrite Phone_init_eq in Hph.
    destruct (len (value ph) =? 10) eqn:Hl; [|discriminate].
    destruct (forallb char_isdigit (value ph)) eqn:Hd; [|discriminate].
    split; [apply Z.eqb_eq, Hl | apply Forall_forall, forallb_forall, Hd].
  - intros b Hb. apply (reachable_birthday_parses self b Hr Hb).
Qed.

(** X5 at a record with one phone. *)
Lemma reachable_record_invariant_witness :
  NoDup (map value (phones (snd (add_phone (py "1234567890")
                                   (mkContact (mkField (py "Ann")) [] None))))).
Proof.
  apply (reachable_record_invariant
           (snd (add_phone (py "1234567890")
                   (mkContact (mkField (py "Ann")) [] None)))).
  apply reach_add_phone. apply (reach_init (py "Ann")). reflexivity.
Defined.

(** ** AddressBook *)

Section DictFacts.

Implicit Types (d : list (str * Contact)) (k : str) (v : Contact).

Lemma dict_get_set_same k v d : dict_get k (dict_set k v d) = Some v.
Proof.
  unfold dict_get. induction d as [|[k' w] d IH]; simpl.
  - rewrite str_eqb_refl. reflexivity.
  - destruct (str_eqb k' k) eqn:E; simpl; rewrite E; [reflexivity | exact IH].
Qed.

Lemma dict_get_set_other k k' v d :
  k' <> k -> dict_get k' (dict_set k v d) = dict_get k' d.
Proof.
  intros Hk. unfold dict_get. induction d as [|[k0 w] d IH]; simpl.
  - replace (str_eqb k k') with false; [reflexivity|].
    symmetry. apply str_eqb_neq. congruence.
  - destruct (str_eqb k0 k) eqn:E; simpl.
    + apply str_eqb_eq in E. subst k0.
      replace (str_eqb k k') with false; [reflexivity|].
      symmetry. apply str_eqb_neq. congruence.
    + destruct (str_eqb k0 k'); [reflexivity | exact IH].
Qed.

Lemma dict_get_None k d : dict_get k d = None <-> ~ In k (map fst d).
Proof.
  unfold dict_get. induction d as [|[k0 w] d IH]; simpl; [tauto|].
  destruct (str_eqb k0 k) eqn:E; simpl.
  - apply str_eqb_eq in E. split; [discriminate | intros H; elim H; auto].
  - apply str_eqb_neq in E. rewrite IH. tauto.
Qed.

Lemma dict_get_Some k v d : dict_get k d = Some v -> In (k, v) d.
Proof.
  unfold dict_get. intros H.
  destruct (find (fun kv => str_eqb (fst kv) k) d) as [[k0 w]|] eqn:F;
    [|discriminate].
  injection H as ->. apply find_some in F. destruct F as [Hin E].
  apply str_eqb_eq in E. simpl in E. subst k0. exact Hin.
Qed.

Lemma dict_set_fresh k v d :
  dict_get k d = None -> dict_set k v d = d ++ [(k, v)].
Proof.
  unfold dict_get. induction d as [|[k0 w] d IH]; simpl; [reflexivity|].
  destruct (str_eqb k0 k); simpl; [discriminate|].
  intros H. rewrite (IH H). reflexivity.
Qed.

Lemma dict_set_keys k v d :
  dict_get k d <> None -> map fst (dict_set k v d) = map fst d.
Proof.
  unfold dict_get. induction d as [|[k0 w] d IH]; simpl; [congruence|].
  destruct (str_eqb k0 k); simpl; [reflexivity|].
  intros H. rewrite (IH H). reflexivity.
Qed.

Lemma dict_set_same k v d : dict_get k d = Some v -> dict_set k v d = d.
Proof.
  unfold dict_get. induction d as [|[k0 w] d IH]; simpl; [discriminate|].
  destruct (str_eqb k0 k); simpl.
  - intros H. injection H as ->. reflexivity.
  - intros H. rewrite (IH H). reflexivity.
Qed.

Lemma dict_get_pop_same k d : dict_get k (dict_pop k d) = None.
Proof.
  apply dict_get_None. unfold dict_pop. intros H. apply in_map_iff in H.
  destruct H as ([k0 w] & E & Hin). simpl in E. subst k0.
  apply filter_In in Hin. destruct Hin as [_ Hf]. simpl in Hf.
  rewrite str_eqb_refl in Hf. discriminate.
Qed.

Lemma dict_get_pop_other k k' d :
  k' <> k -> dict_get k' (dict_pop k d) = dict_get k' d.
Proof.
  intros Hk. unfold dict_get, dict_pop. induction d as [|[k0 w] d IH]; simpl;
    [reflexivity|].
  destruct (str_eqb k0 k) eqn:E; simpl.
  - apply str_eqb_eq in E. subst k0.
    replace (str_eqb k k') with false; [exact IH|].
    symmetry. apply str_eqb_neq. congruence.
  - destruct (str_eqb k0 k'); [reflexivity | exact IH].
Qed.

Lemma dict_pop_missing k d : dict_get k d = None -> dict_pop k d = d.
Proof.
  unfold dict_get, dict_pop. induction d as [|[k0 w] d IH]; simpl;
    [reflexivity|].
  destruct (str_eqb k0 k); simpl; [discriminate|].
  intros H. rewrite (IH H). reflexivity.
Qed.

Lemma Forall_dict_set (P : str * Contact -> Prop) k v d :
  Forall P d -> P (k, v) -> Forall P (dict_set k v d).
Proof.
  intros Hd Hv. induction d as [|[k0 w] d IH]; simpl.
  - constructor; [exact Hv | constructor].
  - inversion Hd as [|? ? H0 Hd']; subst.
    destruct (str_eqb k0 k) eqn:E.
    + apply str_eqb_eq in E. subst k0. constructor; assumption.
    + constructor; [assumption | apply IH; assumption].
Qed.

Lemma Forall_dict_pop (P : str * Contact -> Prop) k d :
  Forall P d -> Forall P (dict_pop k d).
Proof.
  rewrite !Forall_forall. intros H x Hx. apply H.
  unfold dict_pop in Hx. apply filter_In in Hx. tauto.
Qed.

Lemma NoDup_dict_set k v d :
  NoDup (map fst d) -> NoDup (map fst (dict_set k v d)).
Proof.
  intros H. destruct (dict_get k d) eqn:G.
  - rewrite dict_set_keys by congruence. exact H.
  - rewrite dict_set_fresh by exact G. rewrite map_app. simpl.
    apply NoDup_snoc; [exact H | apply dict_get_None, G].
Qed.

Lemma NoDup_dict_pop k d :
  NoDup (map fst d) -> NoDup (map fst (dict_pop k d)).
Proof.
  unfold dict_pop. induction d as [|[k0 w] d IH]; simpl; intros H;
    [constructor|].
  inversion H as [|? ? Hk Hd]; subst.
  destruct (str_eqb k0 k); simpl; [apply IH, Hd|].
  constructor; [|apply IH, Hd].
  intros Hin. apply Hk. apply in_map_iff in Hin.
  destruct Hin as (x & Ex & Hx). apply filter_In in Hx.
  apply in_map_iff. exists x. tauto.
Qed.

End DictFacts.

(** X6: after [add_record(record)], [find] of the record's name returns
    that record, and [find] of any other name returns what it returned
    before. *)
Theorem find_after_add_record (record : Contact) (book : AddressBook) :
  find_record (value (name record)) (add_record record book) = Some record
  /\ (forall n, n <> value (name record) ->
      find_record n (add_record record book) = find_record n book).
Proof.
  unfold find_record, add_record. simpl. split.
  - apply dict_get_set_same.
  - intros n Hn. apply dict_get_set_other. exact Hn.
Qed.

(** X7: after [delete(name)], [find(name)] returns [None] and every other
    name is found as before; [delete] of a name that is not in the book is
    not an error and leaves the book as it was. *)
Theorem find_after_delete (n : str) (book : AddressBook) :
  find_record n (delete n book) = None
  /\ (forall m, m <> n -> find_record m (delete n book) = find_record m book)
  /\ (find_record n book = None -> delete n book = book).
Proof.
  unfold find_record, delete. simpl. split; [|split].
  - apply dict_get_pop_same.
  - intros m Hm. apply dict_get_pop_other. exact Hm.
  - intros H. rewrite dict_pop_missing by exact H. destruct book; reflexivity.
Qed.

(** X8: [add_record] of a record whose name is not in the book puts it
    after all the others; [add_record] of a record whose name is in the book
    replaces the record of that name where it stands, the keys and their
    order being as before. *)
Theorem add_record_order (record : Contact) (book : AddressBook) :
  (find_record (value (name record)) book = None ->
   data (add_record record book)
   = data book ++ [(value (name record), record)])
  /\ (find_record (value (name record)) book <> None ->
      map fst (data (add_record record book)) = map fst (data book)).
Proof.
  unfold find_record, add_record. simpl. split.
  - apply dict_set_fresh.
  - apply dict_set_keys.
Qed.

(** X9: [add_record] of a record the program built, and [delete], keep the
    book in order: no key twice, every record under its own name, every
    record one the program built. *)
Theorem book_ok_add_record_delete (book : AddressBook) (record : Contact)
    (n : str) :
  book_ok book -> reachable record ->
  book_ok (add_record record book) /\ book_ok (delete n book).
Proof.
  intros [Hk Hr] Hrec. unfold book_ok, add_record, delete. simpl.
  split; split.
  - apply NoDup_dict_set. exact Hk.
  - apply Forall_dict_set; [exact Hr | simpl; auto].
  - apply NoDup_dict_pop. exact Hk.
  - apply Forall_dict_pop. exact Hr.
Qed.

(** X9 at the empty book. *)
Lemma book_ok_add_record_delete_witness :
  book_ok (add_record (mkContact (mkField (py "Ann")) [] None)
             (mkAddressBook []))
  /\ book_ok (delete (py "Bob") (mkAddressBook [])).
Proof.
  apply book_ok_add_record_delete.
  - split; constructor.
  - apply (reach_init (py "Ann")). reflexivity.
Defined.

(** ** get_upcoming_birthdays, beyond the claims *)

Lemma spec_shift_weekday (n : Z) : 0 <= (spec_shift n + 6) mod 7 < 5.
Proof.
  unfold spec_shift.
  destruct (Z.eqb_spec ((n + 6) mod 7) 5);
    [|destruct (Z.eqb_spec ((n + 6) mod 7) 6)];
    Z.div_mod_to_equations; lia.
Qed.

(** The three ways an iteration of the loop ends. *)
Lemma upcoming_step_cases (today end_date : date) (result : list Upcoming)
    (rec : Contact) :
  valid_date today -> valid_date end_date ->
  toordinal end_date = toordinal today + 6 ->
  upcoming_step today end_date result rec = Ok result
  \/ (exists u, upcoming_item today rec u
                /\ upcoming_step today end_date result rec = Ok (result ++ [u]))
  \/ (exists msg, upcoming_step today end_date result rec
                  = Raise (ValueError msg)).
Proof.
  intros Vt Ve Ee. unfold upcoming_step.
  destruct (birthday rec) as [b|] eqn:Hb; [|left; reflexivity].
  destruct (strptime_dmY (value b)) as [bday|e] eqn:Hs.
  2:{ right. right. destruct (strptime_dmY_Raise _ _ Hs) as [msg ->].
      exists msg. reflexivity. }
  cbn [bind].
  destruct (date_new (year today) (month bday) (day bday)) as [c0|e] eqn:E0.
  2:{ left. destruct (date_new_Raise _ _ _ _ E0) as [msg ->]. reflexivity. }
  apply date_new_Ok in E0. destruct E0 as [-> V0].
  assert (Hcand :
    (exists cand,
       (if date_lt (mkdate (year today) (month bday) (day bday)) today
        then date_new (year today + 1) (month bday) (day bday)
        else Ok (mkdate (year today) (month bday) (day bday))) = Ok cand
       /\ valid_date cand
       /\ month cand = month bday /\ day cand = day bday
       /\ toordinal today <= toordinal cand)
    \/ (exists msg,
       (if date_lt (mkdate (year today) (month bday) (day bday)) today
        then date_new (year today + 1) (month bday) (day bday)
        else Ok (mkdate (year today) (month bday) (day bday)))
       = Raise (ValueError msg))).
  { destruct (date_lt _ today) eqn:L.
    - destruct (date_new (year today + 1) (month bday) (day bday))
        as [c1|e] eqn:E1.
      + apply date_new_Ok in E1. destruct E1 as [-> V1]. left.
        eexists. split; [reflexivity|]. split; [exact V1|].
        split; [reflexivity|]. split; [reflexivity|].
        assert (Hlt : date_lt today
                        (mkdate (year today + 1) (month bday) (day bday)) = true).
        { unfold date_lt. cbn [year].
          replace (year today <? year today + 1) with true; [reflexivity|].
          symmetry. apply Z.ltb_lt. lia. }
        apply toordinal_lt in Hlt; try (apply valid_day_in_month; assumption).
        lia.
      + destruct (date_new_Raise _ _ _ _ E1) as [msg ->]. right. eauto.
    - left. eexists. split; [reflexivity|]. split; [exact V0|].
      split; [reflexivity|]. split; [reflexivity|].
      rewrite date_lt_toordinal in L by (apply valid_day_in_month; assumption).
      apply Z.ltb_ge in L. exact L. }
  destruct Hcand as [(cand & -> & Vc & Hm & Hd & Hge)|(msg & ->)];
    [|right; right; exists msg; reflexivity].
  cbn [bind].
  destruct (weekend_shift cand Vc) as (shifted & -> & Vs & Es). cbn [bind].
  rewrite !date_le_toordinal by (apply valid_day_in_month; assumption).
  rewrite Ee.
  destruct (Z.leb_spec (toordinal today) (toordinal shifted));
    [|left; reflexivity].
  destruct (Z.leb_spec (toordinal shifted) (toordinal today + 6));
    [|left; reflexivity].
  right. left. cbn [andb]. eexists. split; [|reflexivity].
  split; [reflexivity|]. exists b, bday, cand, shifted. cbn [up_birthday].
  repeat (split; [first [assumption | reflexivity]|]). lia.
Qed.

(** What the loop returns, when it returns. *)
Lemma upcoming_loop_Ok (today end_date : date) (recs : list Contact) :
  valid_date today -> valid_date end_date ->
  toordinal end_date = toordinal today + 6 ->
  forall result l,
    upcoming_loop today end_date result recs = Ok l ->
    exists items,
      l = result ++ items
      /\ Forall (fun u => exists rec, In rec recs /\ upcoming_item today rec u)
                items.
Proof.
  intros Vt Ve Ee. induction recs as [|rec recs IH]; simpl; intros result l H.
  - injection H as <-. exists []. rewrite app_nil_r. split; constructor.
  - destruct (upcoming_step_cases today end_date result rec Vt Ve Ee)
      as [E|[(u & Hu & E)|(msg & E)]]; rewrite E in H; cbn [bind] in H.
    + destruct (IH _ _ H) as (items & -> & Hall). exists items.
      split; [reflexivity|]. eapply Forall_impl; [|exact Hall].
      intros x (r & Hr & Hx). exists r. auto.
    + destruct (IH _ _ H) as (items & -> & Hall). exists (u :: items).
      split; [rewrite <- app_assoc; reflexivity|]. constructor.
      * exists rec. auto.
      * eapply Forall_impl; [|exact Hall].
        intros x (r & Hr & Hx). exists r. auto.
    + discriminate.
Qed.

Lemma date_add_6_Ok (today end_date : date) :
  valid_date today -> date_add today (mktimedelta 6) = Ok end_date ->
  valid_date end_date /\ toordinal end_date = toordinal today + 6.
Proof.
  intros Vt H. pose proof (toordinal_bounds today Vt) as B.
  unfold date_add in H. cbn [days] in H.
  destruct (Z.ltb_spec 0 (toordinal today + 6)); [|discriminate].
  destruct (Z.leb_spec (toordinal today + 6) _MAXORDINAL); [|discriminate].
  cbn [andb] in H.
  destruct (fromordinal_Ok (toordinal today + 6) ltac:(lia)) as (d & E & V & T).
  rewrite E in H. injection H as <-. auto.
Qed.

Lemma get_upcoming_birthdays_Ok (clock : Clock) (book : AddressBook)
    (l : list Upcoming) :
  valid_date (date_today clock) ->
  get_upcoming_birthdays clock book = Ok l ->
  Forall (fun u => exists rec, In rec (values (data book))
                               /\ upcoming_item (date_today clock) rec u) l.
Proof.
  intros Vt H. unfold get_upcoming_birthdays in H.
  destruct (date_add (date_today clock) (mktimedelta 6)) as [e|] eqn:Ea;
    [|discriminate].
  cbn [bind] in H. destruct (date_add_6_Ok _ _ Vt Ea) as [Ve Ee].
  destruct (upcoming_loop_Ok _ _ _ Vt Ve Ee _ _ H) as (items & -> & Hall).
  exact Hall.
Qed.

(** X10: every item [get_upcoming_birthdays] returns bears the name of a
    record of the book that has a birthday, and a date that is a working
    day (Monday to Friday) from today to today plus six days: never a
    Saturday or a Sunday, never a day passed, never a day further ahead. *)
Theorem upcoming_dates_are_working_days (clock : Clock) (book : AddressBook)
    (l : list Upcoming) :
  valid_date (date_today clock) ->
  get_upcoming_birthdays clock book = Ok l ->
  Forall (fun u =>
            exists rec shifted,
              In rec (values (data book)) /\ birthday rec <> None
              /\ up_name u = value (name rec)
              /\ valid_date shifted
              /\ up_birthday u = strftime_dmY shifted
              /\ weekday shifted < 5
              /\ toordinal (date_today clock) <= toordinal shifted
                 <= toordinal (date_today clock) + 6) l.
Proof.
  intros Vt H. eapply Forall_impl; [|exact (get_upcoming_birthdays_Ok _ _ _ Vt H)].
  intros u (rec & Hin & Hn & b & bday & cand & shifted & Hb & _ & _ & _ & _ & _
            & Vs & Es & Hu & Hw).
  exists rec, shifted. repeat (split; [first [assumption | congruence]|]).
  split; [|exact Hw]. unfold weekday. rewrite Es. apply spec_shift_weekday.
Qed.

(** X10 on Thursday 13.06.2024, for a birthday on Saturday 15.06. *)
Lemma upcoming_dates_are_working_days_witness :
  Forall (fun u =>
            exists rec shifted,
              In rec [mkContact (mkField (py "Bob")) []
                        (Some (mkField (py "15.06.2020")))]
              /\ birthday rec <> None
              /\ up_name u = value (name rec)
              /\ valid_date shifted
              /\ up_birthday u = strftime_dmY shifted
              /\ weekday shifted < 5
              /\ toordinal (mkdate 2024 6 13) <= toordinal shifted
                 <= toordinal (mkdate 2024 6 13) + 6)
         [mkUpcoming (py "Bob") (py "17.06.2024")].
Proof.
  apply (upcoming_dates_are_working_days
           (mkClock (mkdate 2024 6 13) 0)
           (mkAddressBook
              [(py "Bob", mkContact (mkField (py "Bob")) []
                            (Some (mkField (py "15.06.2020"))))])).
  - unfold valid_date, MINYEAR, MAXYEAR, date_today.
    cbn [year month day clock_date].
    change (_days_in_month 2024 6) with 30. lia.
  - vm_compute. reflexivity.
Defined.

(** X11: when today is a Monday, every date [get_upcoming_birthdays]
    returns is the day and month of the birthday itself: a birthday on the
    Saturday or Sunday of the week would move to the next Monday, which is
    out of the window, so no week-end birthday is listed on a Monday. *)
Theorem upcoming_on_monday (clock : Clock) (book : AddressBook)
    (l : list Upcoming) :
  valid_date (date_today clock) ->
  weekday (date_today clock) = 0 ->
  get_upcoming_birthdays clock book = Ok l ->
  Forall (fun u =>
            exists rec b bday shown,
              In rec (values (data book))
              /\ up_name u = value (name rec)
              /\ birthday rec = Some b
              /\ strptime_dmY (value b) = Ok bday
              /\ up_birthday u = strftime_dmY shown
              /\ month shown = month bday /\ day shown = day bday
              /\ weekday shown < 5) l.
Proof.
  intros Vt Hmon H.
  eapply Forall_impl; [|exact (get_upcoming_birthdays_Ok _ _ _ Vt H)].
  intros u (rec & Hin & Hn & b & bday & cand & shifted & Hb & Hs & Vc & Hm & Hd
            & Hge & Vs & Es & Hu & Hw).
  assert (E : shifted = cand).
  { apply toordinal_inj; try (apply valid_day_in_month; assumption).
    rewrite Es. rewrite Es in Hw. unfold weekday in Hmon.
    unfold spec_shift in *.
    destruct (Z.eqb_spec ((toordinal cand + 6) mod 7) 5);
      [|destruct (Z.eqb_spec ((toordinal cand + 6) mod 7) 6)];
      [exfalso; Z.div_mod_to_equations; lia
      |exfalso; Z.div_mod_to_equations; lia
      |reflexivity]. }
  subst shifted. exists rec, b, bday, cand.
  repeat (split; [assumption|]).
  unfold weekday. pose proof (spec_shift_weekday (toordinal cand)) as W.
  rewrite <- Es in W. lia.
Qed.

(** X11 on Monday 10.06.2024, for birthdays on Sunday 16.06 and Wednesday 12.06. *)
Lemma upcoming_on_monday_witness :
  Forall (fun u =>
            exists rec b bday shown,
              In rec [mkContact (mkField (py "Ann")) []
                        (Some (mkField (py "16.06.2020")));
                      mkContact (mkField (py "Bob")) []
                        (Some (mkField (py "12.06.2020")))]
              /\ up_name u = value (name rec)
              /\ birthday rec = Some b
              /\ strptime_dmY (value b) = Ok bday
              /\ up_birthday u = strftime_dmY shown
              /\ month shown = month bday /\ day shown = day bday
              /\ weekday shown < 5)
         [mkUpcoming (py "Bob") (py "12.06.2024")].
Proof.
  apply (upcoming_on_monday
           (mkClock (mkdate 2024 6 10) 0)
           (mkAddressBook
              [(py "Ann", mkContact (mkField (py "Ann")) []
                            (Some (mkField (py "16.06.2020"))));
               (py "Bob", mkContact (mkField (py "Bob")) []
                            (Some (mkField (py "12.06.2020"))))])).
  - unfold valid_date, MINYEAR, MAXYEAR, date_today.
    cbn [year month day clock_date].
    change (_days_in_month 2024 6) with 30. lia.
  - vm_compute. reflexivity.
  - vm_compute. reflexivity.
Defined.

(** The list handed to an iteration only grows at its end. *)
Lemma upcoming_step_acc (today end_date : date) (result : list Upcoming)
    (rec : Contact) :
  upcoming_step today end_date result rec
  = (items <- upcoming_step today end_date [] rec ;; Ok (result ++ items)).
Proof.
  unfold upcoming_step.
  destruct (birthday rec) as [b|]; [|cbn [bind]; rewrite app_nil_r; reflexivity].
  destruct (strptime_dmY (value b)) as [bday|e]; [|reflexivity]. cbn [bind].
  destruct (date_new (year today) (month bday) (day bday)) as [c0|[msg|msg]];
    [|cbn [bind]; rewrite app_nil_r; reflexivity | reflexivity].
  destruct (if date_lt c0 today
            then date_new (year today + 1) (month bday) (day bday)
            else Ok c0) as [cand|e]; [|reflexivity].
  cbn [bind].
  destruct (if weekday cand =? 5 then date_add cand (mktimedelta 2)
            else if weekday cand =? 6 then date_add cand (mktimedelta 1)
            else Ok cand) as [shifted|e]; [|reflexivity].
  cbn [bind].
  destruct (date_le today shifted && date_le shifted end_date); cbn [bind];
    [reflexivity | rewrite app_nil_r; reflexivity].
Qed.

Lemma upcoming_loop_incl (today end_date : date) (recs : list Contact)
    (rec : Contact) (items : list Upcoming) :
  In rec recs -> upcoming_step today end_date [] rec = Ok items ->
  forall result l,
    upcoming_loop today end_date result recs = Ok l -> incl items l.
Proof.
  intros Hin Hstep. induction recs as [|r recs IH]; [destruct Hin|].
  assert (Hgrow : forall recs' result l,
            upcoming_loop today end_date result recs' = Ok l -> incl result l).
  { clear. induction recs' as [|r recs' IH]; simpl; intros result l H.
    - injection H as <-. apply incl_refl.
    - rewrite upcoming_step_acc in H.
      destruct (upcoming_step today end_date [] r) as [its|]; [|discriminate].
      cbn [bind] in H. apply IH in H.
      intros x Hx. apply H. apply in_app_iff. left. exact Hx. }
  simpl. intros result l H. rewrite upcoming_step_acc in H.
  destruct Hin as [->|Hin].
  - rewrite Hstep in H. cbn [bind] in H. apply Hgrow in H.
    intros x Hx. apply H. apply in_app_iff. right. exact Hx.
  - destruct (upcoming_step today end_date [] r) as [its|]; [|discriminate].
    cbn [bind] in H. exact (IH Hin _ _ H).
Qed.

Lemma spec_shift_bounds (n : Z) : n <= spec_shift n <= n + 2.
Proof.
  unfold spec_shift.
  destruct ((n + 6) mod 7 =? 5); [lia|].
  destruct ((n + 6) mod 7 =? 6); lia.
Qed.

(** X12: a record whose birthday has the day and month of today is always
    in the list [get_upcoming_birthdays] returns: under today's date when
    today is a working day, under the date of the next Monday when today is
    a Saturday or a Sunday. *)
Theorem birthday_today_is_listed (clock : Clock) (book : AddressBook)
    (l : list Upcoming) (rec : Contact) (b : Birthday) (bday : date) :
  valid_date (date_today clock) ->
  get_upcoming_birthdays clock book = Ok l ->
  In rec (values (data book)) ->
  birthday rec = Some b ->
  strptime_dmY (value b) = Ok bday ->
  month bday = month (date_today clock) ->
  day bday = day (date_today clock) ->
  In (mkUpcoming (value (name rec))
        (spec_text (spec_shift (toordinal (date_today clock))))) l
  /\ (weekday (date_today clock) < 5 ->
      spec_text (spec_shift (toordinal (date_today clock)))
      = strftime_dmY (date_today clock)).
Proof.
  intros Vt H Hin Hb Hs Hm Hd. set (today := date_today clock) in *.
  split.
  - unfold get_upcoming_birthdays in H. fold today in H.
    destruct (date_add today (mktimedelta 6)) as [e|] eqn:Ea; [|discriminate].
    cbn [bind] in H. destruct (date_add_6_Ok _ _ Vt Ea) as [Ve Ee].
    apply (upcoming_loop_incl today e (values (data book)) rec
             [mkUpcoming (value (name rec))
                (spec_text (spec_shift (toordinal today)))] Hin) in H;
      [apply H; left; reflexivity|].
    unfold upcoming_step. rewrite Hb, Hs. cbn [bind]. rewrite Hm, Hd.
    replace (mkdate (year today) (month today) (day today)) with today
      by (destruct today; reflexivity).
    rewrite (date_new_valid (year today) (month today) (day today))
      by (destruct today; exact Vt).
    replace (mkdate (year today) (month today) (day today)) with today
      by (destruct today; reflexivity).
    rewrite date_lt_toordinal by (apply valid_day_in_month; assumption).
    rewrite Z.ltb_irrefl. cbn [bind].
    destruct (weekend_shift today Vt) as (shifted & -> & Vs & Es). cbn [bind].
    rewrite !date_le_toordinal by (apply valid_day_in_month; assumption).
    pose proof (spec_shift_bounds (toordinal today)) as B.
    rewrite Ee, Es.
    destruct (Z.leb_spec (toordinal today) (spec_shift (toordinal today)));
      [|lia].
    destruct (Z.leb_spec (spec_shift (toordinal today)) (toordinal today + 6));
      [|lia].
    cbn [andb app]. rewrite <- Es, (spec_text_toordinal shifted Vs).
    reflexivity.
  - intros Hw. unfold weekday in Hw. unfold spec_shift.
    pose proof (Z.mod_pos_bound (toordinal today + 6) 7 ltac:(lia)) as B.
    destruct (Z.eqb_spec ((toordinal today + 6) mod 7) 5); [lia|].
    destruct (Z.eqb_spec ((toordinal today + 6) mod 7) 6); [lia|].
    apply spec_text_toordinal. exact Vt.
Qed.

(** X12 on Saturday 15.06.2024, for a birthday on 15.06. *)
Lemma birthday_today_is_listed_witness :
  In (mkUpcoming (py "Bob")
        (spec_text (spec_shift (toordinal (mkdate 2024 6 15)))))
     [mkUpcoming (py "Bob") (py "17.06.2024")]
  /\ (weekday (mkdate 2024 6 15) < 5 ->
      spec_text (spec_shift (toordinal (mkdate 2024 6 15)))
      = strftime_dmY (mkdate 2024 6 15)).
Proof.
  apply (birthday_today_is_listed
           (mkClock (mkdate 2024 6 15) 0)
           (mkAddressBook
              [(py "Bob", mkContact (mkField (py "Bob")) []
                            (Some (mkField (py "15.06.2020"))))])
           [mkUpcoming (py "Bob") (py "17.06.2024")]
           (mkContact (mkField (py "Bob")) []
              (Some (mkField (py "15.06.2020"))))
           (mkField (py "15.06.2020")) (mkdate 2020 6 15)).
  - unfold valid_date, MINYEAR, MAXYEAR, date_today.
    cbn [year month day clock_date].
    change (_days_in_month 2024 6) with 30. lia.
  - vm_compute. reflexivity.
  - left. reflexivity.
  - reflexivity.
  - vm_compute. reflexivity.
  - reflexivity.
  - reflexivity.
Defined.

Lemma toordinal_before_last_year (d : date) :
  valid_date d -> year d < MAXYEAR -> toordinal d + 6 <= _MAXORDINAL.
Proof.
  intros (Hy & Hm & Hd) Hlt. unfold toordinal, _ymd2ord.
  pose proof (day_of_year_bounds _ _ _ Hm Hd) as B.
  pose proof (days_before_year_next (year d)) as N.
  unfold MINYEAR, MAXYEAR in *.
  pose proof (days_before_year_mono (year d + 1) 9999 ltac:(lia)) as M.
  change (_days_before_year 9999) with 3651694 in M.
  unfold _MAXORDINAL. lia.
Qed.

(** X13: for a book the command layer keeps, in which no birthday is a 29
    February, [get_upcoming_birthdays] returns a list whatever the date of
    the clock before the year 9999: it raises nothing. *)
Theorem upcoming_returns_without_leap_days (clock : Clock) (book : AddressBook) :
  valid_date (date_today clock) ->
  year (date_today clock) < MAXYEAR ->
  book_ok book ->
  (forall rec b bday,
     In rec (values (data book)) -> birthday rec = Some b ->
     strptime_dmY (value b) = Ok bday -> month bday = 2 -> day bday <> 29) ->
  exists l, get_upcoming_birthdays clock book = Ok l.
Proof.
  intros Vt Hy [_ Hok] Hleap.
  pose proof (toordinal_before_last_year _ Vt Hy) as Hmax.
  pose proof (toordinal_bounds _ Vt) as B.
  unfold get_upcoming_birthdays.
  destruct (date_add_Ok (date_today clock) 6 ltac:(lia)) as (e & -> & Ve & Ee).
  cbn [bind].
  rewrite (upcoming_loop_spec _ _ _ Vt Ve Ee); [eauto|].
  apply forallb_forall. intros rec Hin.
  destruct (birthday rec) as [b|] eqn:Hb;
    [|unfold rollover_safe; rewrite Hb; reflexivity].
  assert (Hr : reachable rec).
  { unfold values in Hin. apply in_map_iff in Hin.
    destruct Hin as (kv & <- & Hkv). rewrite Forall_forall in Hok.
    apply (Hok kv Hkv). }
  destruct (reachable_birthday_parses rec b Hr Hb) as (bday & Hs & Vb).
  apply (rollover_safe_but_leap_day _ rec b bday); try assumption.
  apply (Hleap rec b bday); assumption.
Qed.

(** X13 on 10.06.2024, for a book with one birthday, on 12.06. *)
Lemma upcoming_returns_without_leap_days_witness :
  exists l,
    get_upcoming_birthdays (mkClock (mkdate 2024 6 10) 0)
      (add_record
         (snd (add_birthday (py "12.06.2020")
                 (mkContact (mkField (py "Bob")) [] None)))
         (mkAddressBook [])) = Ok l.
Proof.
  apply upcoming_returns_without_leap_days.
  - unfold valid_date, MINYEAR, MAXYEAR, date_today.
    cbn [year month day clock_date].
    change (_days_in_month 2024 6) with 30. lia.
  - vm_compute. reflexivity.
  - split; [vm_compute; repeat constructor; intros []|].
    constructor; [|constructor]. split; [reflexivity|].
    apply reach_add_birthday. apply (reach_init (py "Bob")). reflexivity.
  - intros rec b bday Hin Hb Hs Hm.
    vm_compute in Hin. destruct Hin as [<-|[]].
    vm_compute in Hb. injection Hb as <-.
    vm_compute in Hs. injection Hs as <-. discriminate.
Defined.

(** ** The date of the clock *)










(** ** The command handlers *)

Lemma add_phone_Raise (p : str) (self self' : Contact) (e : exception) :
  add_phone p self = (Raise e, self') ->
  self' = self /\ exists msg, e = ValueError msg.
Proof.
  destruct (stored_dec p self) as [S|S].
  - rewrite add_phone_duplicate by assumption. intros H.
    injection H as <- <-. unfold DuplicatePhone. eauto.
  - destruct (Phone_init_cases p) as [E|E].
    + rewrite add_phone_appends by assumption. discriminate.
    + rewrite add_phone_invalid by assumption. intros H.
      injection H as <- <-. unfold InvalidPhoneFormat. eauto.
Qed.

Lemma edit_phone_Raise (old new : str) (self self' : Contact) (e : exception) :
  edit_phone old new self = (Raise e, self') ->
  self' = self /\ exists msg, e = ValueError msg.
Proof.
  destruct (stored_dec old self) as [Ho|Ho];
    [destruct (stored_dec new self) as [Hn|Hn];
     [|destruct (Phone_init_cases new) as [E|E]]|].
  - rewrite edit_phone_duplicate by assumption. intros H.
    injection H as <- <-. unfold DuplicatePhone. eauto.
  - rewrite edit_phone_replaces by assumption. discriminate.
  - rewrite edit_phone_invalid by assumption. intros H.
    injection H as <- <-. unfold InvalidPhoneFormat. eauto.
  - rewrite edit_phone_missing by assumption. intros H.
    injection H as <- <-. unfold PhoneNotFound. eauto.
Qed.

Lemma add_birthday_Raise (raw : str) (self self' : Contact) (e : exception) :
  add_birthday raw self = (Raise e, self') ->
  self' = self /\ exists msg, e = ValueError msg.
Proof.
  unfold add_birthday. destruct (birthday self).
  - intros H. injection H as <- <-. eauto.
  - unfold mbind, pure_call.
    destruct (Birthday_init_cases raw) as [E|E]; rewrite E; [discriminate|].
    intros H. injection H as <- <-. unfold InvalidDateFormat. eauto.
Qed.

Lemma book_eta (book : AddressBook) : mkAddressBook (data book) = book.
Proof. destruct book; reflexivity. Qed.

(** A method that raises on the record found leaves the book as it was. *)
Lemma on_record_unchanged {A : Type} (n : str) (rec : Contact) (m : method A)
    (book : AddressBook) :
  find_record n book = Some rec -> snd (m rec) = rec ->
  snd (on_record n rec m book) = book.
Proof.
  intros Hf Hm. unfold on_record. destruct (m rec) as [r rec']. simpl in *.
  subst rec'. unfold find_record in Hf. rewrite dict_set_same by exact Hf.
  apply book_eta.
Qed.

Lemma input_error_answers (func : command str) (book : AddressBook) :
  (forall msg, fst (func book) <> Raised (Builtin (OverflowError msg))) ->
  answers (input_error func book).
Proof.
  intros H. unfold input_error, answers.
  destruct (func book) as [[text|[[msg|msg]| |msg]] book']; simpl in *; eauto.
  elim (H msg). reflexivity.
Qed.

Lemma unpack2_Raised (args : list str) (e : raised) :
  unpack2 args = Raised e -> exists msg, e = Builtin (ValueError msg).
Proof.
  destruct args as [|a [|b [|c args]]]; simpl; intros H;
    try discriminate; injection H as <-; eauto.
Qed.

Lemma unpack3_Raised (args : list str) (e : raised) :
  unpack3 args = Raised e -> exists msg, e = Builtin (ValueError msg).
Proof.
  destruct args as [|a [|b [|c [|d args]]]]; simpl; intros H;
    try discriminate; injection H as <-; eauto.
Qed.

Lemma get_upcoming_birthdays_no_overflow (clock : Clock) (book : AddressBook) :
  valid_date (date_today clock) ->
  toordinal (date_today clock) + 6 <= _MAXORDINAL ->
  forall msg, get_upcoming_birthdays clock book <> Raise (OverflowError msg).
Proof.
  intros Vt Hmax msg. unfold get_upcoming_birthdays.
  pose proof (toordinal_bounds _ Vt) as B.
  destruct (date_add_Ok (date_today clock) 6 ltac:(lia)) as (e & -> & Ve & Ee).
  cbn [bind]. generalize (@nil Upcoming).
  induction (values (data book)) as [|rec recs IH]; simpl; intros result;
    [discriminate|].
  destruct (upcoming_step_cases (date_today clock) e result rec Vt Ve Ee)
    as [E|[(u & _ & E)|(m & E)]]; rewrite E; cbn [bind];
    [apply IH | apply IH | discriminate].
Qed.

Lemma add_contact_answers (args : list str) (book : AddressBook) :
  answers (Commands.add_contact args book).
Proof.
  apply input_error_answers. intros msg. unfold Commands.add_contact_body.
  destruct (unpack2 args) as [[n p]|e] eqn:U;
    [|destruct (unpack2_Raised _ _ U) as [m ->]; discriminate].
  destruct (find_record n book) as [rec|].
  - destruct (truthy p); [|discriminate].
    unfold on_record. destruct (add_phone p rec) as [[[]|e] rec'] eqn:E;
      simpl; [discriminate|].
    destruct (add_phone_Raise _ _ _ _ E) as [_ [m ->]]. discriminate.
  - unfold Record_init, Name_init. cbn [bind].
    destruct (truthy p); [|discriminate].
    destruct (add_phone p _) as [[[]|e] rec'] eqn:E; simpl; [discriminate|].
    destruct (add_phone_Raise _ _ _ _ E) as [_ [m ->]]. discriminate.
Qed.

Lemma change_contact_answers (args : list str) (book : AddressBook) :
  answers (Commands.change_contact args book).
Proof.
  apply input_error_answers. intros msg. unfold Commands.change_contact_body.
  destruct (unpack3 args) as [[[n o] p]|e] eqn:U;
    [|destruct (unpack3_Raised _ _ U) as [m ->]; discriminate].
  destruct (find_record n book) as [rec|]; [|discriminate].
  unfold on_record. destruct (edit_phone o p rec) as [[[]|e] rec'] eqn:E;
    simpl; [discriminate|].
  destruct (edit_phone_Raise _ _ _ _ _ E) as [_ [m ->]]. discriminate.
Qed.

Lemma show_phone_answers (args : list str) (book : AddressBook) :
  answers (Commands.show_phone args book).
Proof.
  apply input_error_answers. intros msg. unfold Commands.show_phone_body.
  destruct args as [|n args]; simpl; [discriminate|].
  destruct (find_record n book); discriminate.
Qed.

Lemma add_birthday_answers (args : list str) (book : AddressBook) :
  answers (Commands.add_birthday args book).
Proof.
  apply input_error_answers. intros msg. unfold Commands.add_birthday_body.
  destruct (unpack2 args) as [[n p]|e] eqn:U;
    [|destruct (unpack2_Raised _ _ U) as [m ->]; discriminate].
  destruct (find_record n book) as [rec|]; [|discriminate].
  unfold on_record. destruct (add_birthday p rec) as [[[]|e] rec'] eqn:E;
    simpl; [discriminate|].
  destruct (add_birthday_Raise _ _ _ _ E) as [_ [m ->]]. discriminate.
Qed.

Lemma show_birthday_answers (args : list str) (book : AddressBook) :
  answers (Commands.show_birthday args book).
Proof.
  apply input_error_answers. intros msg. unfold Commands.show_birthday_body.
  destruct args as [|n args]; simpl; [discriminate|].
  destruct (find_record n book) as [rec|]; [|discriminate].
  destruct (birthday rec); discriminate.
Qed.

Lemma birthdays_answers (clock : Clock) (args : list str) (book : AddressBook) :
  valid_date (date_today clock) ->
  toordinal (date_today clock) + 6 <= _MAXORDINAL ->
  answers (Commands.birthdays clock args book).
Proof.
  intros Vt Hmax. apply input_error_answers. intros msg.
  unfold Commands.birthdays_body.
  pose proof (get_upcoming_birthdays_no_overflow clock book Vt Hmax) as N.
  destruct (get_upcoming_birthdays clock book) as [l|e].
  - destruct (truthy l); discriminate.
  - simpl. intros H. injection H as ->. elim (N msg). reflexivity.
Qed.

(** X14: the handlers [add_contact], [change_contact], [show_phone],
    [add_birthday] and [show_birthday] return a text whatever the arguments
    and the book: no exception leaves them.  So does [birthdays] as long as
    today plus six days is in the calendar. *)
Theorem handlers_always_answer (args : list str) (book : AddressBook) :
  answers (Commands.add_contact args book)
  /\ answers (Commands.change_contact args book)
  /\ answers (Commands.show_phone args book)
  /\ answers (Commands.add_birthday args book)
  /\ answers (Commands.show_birthday args book)
  /\ (forall clock,
        valid_date (date_today clock) ->
        toordinal (date_today clock) + 6 <= _MAXORDINAL ->
        answers (Commands.birthdays clock args book)).
Proof.
  split; [apply add_contact_answers|].
  split; [apply change_contact_answers|].
  split; [apply show_phone_answers|].
  split; [apply add_birthday_answers|].
  split; [apply show_birthday_answers|].
  intros clock. apply birthdays_answers.
Qed.

Lemma Phone_init_truthy (p : str) :
  Phone_init p = Ok (mkField p) -> truthy p = true.
Proof.
  rewrite Phone_init_eq. destruct p; [discriminate | reflexivity].
Qed.

(** X15: a handler changes the book only when it reports a success: unless
    [add_contact] answers "Contact added." or "Phone added to existing
    contact.", [change_contact] answers "Phone updated." and [add_birthday]
    answers "Birthday added.", the book is as it was. *)
Theorem handlers_change_only_on_success (args : list str) (book : AddressBook) :
  (snd (Commands.add_contact args book) = book
   \/ fst (Commands.add_contact args book) = Return (py "Contact added.")
   \/ fst (Commands.add_contact args book)
      = Return (py "Phone added to existing contact."))
  /\ (snd (Commands.change_contact args book) = book
      \/ fst (Commands.change_contact args book) = Return (py "Phone updated."))
  /\ (snd (Commands.add_birthday args book) = book
      \/ fst (Commands.add_birthday args book) = Return (py "Birthday added.")).
Proof.
  split; [|split].
  - unfold Commands.add_contact, input_error, Commands.add_contact_body.
    destruct (unpack2 args) as [[n p]|e] eqn:U.
    2:{ destruct (unpack2_Raised _ _ U) as [m ->]. left. reflexivity. }
    destruct (find_record n book) as [rec|] eqn:F.
    + destruct (truthy p); [|left; reflexivity].
      pose proof (on_record_unchanged n rec (add_phone p) book F) as Hu.
      unfold on_record in *.
      destruct (add_phone p rec) as [[[]|e] rec'] eqn:E; simpl in *.
      * right. right. reflexivity.
      * destruct (add_phone_Raise _ _ _ _ E) as [-> [m ->]]. left.
        simpl. apply Hu. reflexivity.
    + unfold Record_init, Name_init. cbn [bind].
      destruct (truthy p); [|right; left; reflexivity].
      destruct (add_phone p _) as [[[]|e] rec'] eqn:E; simpl.
      * right. left. reflexivity.
      * destruct (add_phone_Raise _ _ _ _ E) as [_ [m ->]]. left. reflexivity.
  - unfold Commands.change_contact, input_error, Commands.change_contact_body.
    destruct (unpack3 args) as [[[n o] p]|e] eqn:U.
    2:{ destruct (unpack3_Raised _ _ U) as [m ->]. left. reflexivity. }
    destruct (find_record n book) as [rec|] eqn:F; [|left; reflexivity].
    pose proof (on_record_unchanged n rec (edit_phone o p) book F) as Hu.
    unfold on_record in *.
    destruct (edit_phone o p rec) as [[[]|e] rec'] eqn:E; simpl in *.
    + right. reflexivity.
    + destruct (edit_phone_Raise _ _ _ _ _ E) as [-> [m ->]]. left.
      simpl. apply Hu. reflexivity.
  - unfold Commands.add_birthday, input_error, Commands.add_birthday_body.
    destruct (unpack2 args) as [[n p]|e] eqn:U.
    2:{ destruct (unpack2_Raised _ _ U) as [m ->]. left. reflexivity. }
    destruct (find_record n book) as [rec|] eqn:F; [|left; reflexivity].
    pose proof (on_record_unchanged n rec (add_birthday p) book F) as Hu.
    unfold on_record in *.
    destruct (add_birthday p rec) as [[[]|e] rec'] eqn:E; simpl in *.
    + right. reflexivity.
    + destruct (add_birthday_Raise _ _ _ _ E) as [-> [m ->]]. left.
      simpl. apply Hu. reflexivity.
Qed.

Lemma book_ok_find (book : AddressBook) (n : str) (rec : Contact) :
  book_ok book -> find_record n book = Some rec ->
  value (name rec) = n /\ reachable rec.
Proof.
  intros [_ Hok] Hf. unfold find_record in Hf. apply dict_get_Some in Hf.
  rewrite Forall_forall in Hok. apply (Hok _ Hf).
Qed.

Lemma book_ok_on_record {A : Type} (book : AddressBook) (n : str)
    (rec : Contact) (m : method A) :
  book_ok book -> find_record n book = Some rec ->
  name (snd (m rec)) = name rec -> reachable (snd (m rec)) ->
  book_ok (snd (on_record n rec m book)).
Proof.
  intros Hok Hf Hn Hr. destruct (book_ok_find _ _ _ Hok Hf) as [Hk _].
  destruct Hok as [Hnd Hall]. unfold on_record.
  destruct (m rec) as [r rec']. simpl in *. split; simpl.
  - apply NoDup_dict_set. exact Hnd.
  - apply Forall_dict_set; [exact Hall|]. simpl. rewrite Hn. auto.
Qed.

Lemma add_phone_name (p : str) (self : Contact) :
  name (snd (add_phone p self)) = name self.
Proof. destruct (add_phone_state p self) as [->|(_ & _ & ->)]; reflexivity. Qed.

Lemma edit_phone_name (old new : str) (self : Contact) :
  name (snd (edit_phone old new self)) = name self.
Proof.
  destruct (edit_phone_state old new self) as [->|(_ & _ & ->)]; reflexivity.
Qed.

Lemma add_birthday_name (raw : str) (self : Contact) :
  name (snd (add_birthday raw self)) = name self.
Proof.
  destruct (add_birthday_state raw self) as [->|(_ & ->)]; reflexivity.
Qed.

Lemma snd_input_error (func : command str) (book : AddressBook) :
  snd (input_error func book) = snd (func book).
Proof.
  unfold input_error.
  destruct (func book) as [[text|[[msg|msg]| |msg]] book']; reflexivity.
Qed.

Lemma add_contact_book_ok (args : list str) (book : AddressBook) :
  book_ok book -> book_ok (snd (Commands.add_contact args book)).
Proof.
  intros Hok. unfold Commands.add_contact. rewrite snd_input_error.
  unfold Commands.add_contact_body.
  destruct (unpack2 args) as [[n p]|e]; [|exact Hok].
  destruct (find_record n book) as [rec|] eqn:F.
  - destruct (truthy p); [|exact Hok].
    pose proof (book_ok_on_record book n rec (add_phone p) Hok F
                  (add_phone_name p rec)) as H.
    destruct (book_ok_find _ _ _ Hok F) as [_ Hr].
    specialize (H (reach_add_phone p rec Hr)).
    destruct (on_record n rec (add_phone p) book) as [[u|e] book']; exact H.
  - unfold Record_init, Name_init. cbn [bind].
    assert (Hnew : forall rec', reachable rec' -> value (name rec') = n ->
              book_ok (add_record rec' book)).
    { intros rec' Hr' Hn'. destruct Hok as [Hnd Hall].
      unfold add_record. split; simpl.
      - apply NoDup_dict_set. exact Hnd.
      - apply Forall_dict_set; [exact Hall|]. simpl. auto. }
    assert (R0 : reachable (mkContact (mkField n) [] None))
      by (apply (reach_init n); reflexivity).
    destruct (truthy p); [|apply Hnew; [exact R0 | reflexivity]].
    pose proof (reach_add_phone p _ R0) as R1.
    pose proof (add_phone_name p (mkContact (mkField n) [] None)) as N1.
    destruct (add_phone p (mkContact (mkField n) [] None)) as [[[]|e] rec'];
      simpl in *; [|exact Hok].
    apply Hnew; [exact R1 | rewrite N1; reflexivity].
Qed.

Lemma change_contact_book_ok (args : list str) (book : AddressBook) :
  book_ok book -> book_ok (snd (Commands.change_contact args book)).
Proof.
  intros Hok. unfold Commands.change_contact. rewrite snd_input_error.
  unfold Commands.change_contact_body.
  destruct (unpack3 args) as [[[n o] p]|e]; [|exact Hok].
  destruct (find_record n book) as [rec|] eqn:F; [|exact Hok].
  pose proof (book_ok_on_record book n rec (edit_phone o p) Hok F
                (edit_phone_name o p rec)) as H.
  destruct (book_ok_find _ _ _ Hok F) as [_ Hr].
  specialize (H (reach_edit_phone o p rec Hr)).
  destruct (on_record n rec (edit_phone o p) book) as [[u|e] book']; exact H.
Qed.

Lemma add_birthday_book_ok (args : list str) (book : AddressBook) :
  book_ok book -> book_ok (snd (Commands.add_birthday args book)).
Proof.
  intros Hok. unfold Commands.add_birthday. rewrite snd_input_error.
  unfold Commands.add_birthday_body.
  destruct (unpack2 args) as [[n p]|e]; [|exact Hok].
  destruct (find_record n book) as [rec|] eqn:F; [|exact Hok].
  pose proof (book_ok_on_record book n rec (add_birthday p) Hok F
                (add_birthday_name p rec)) as H.
  destruct (book_ok_find _ _ _ Hok F) as [_ Hr].
  specialize (H (reach_add_birthday p rec Hr)).
  destruct (on_record n rec (add_birthday p) book) as [[u|e] book']; exact H.
Qed.

(** X16: the handlers keep the book in order: starting from a book with no
    key twice, every record under its own name and every record built by
    the program, [add_contact], [change_contact] and [add_birthday] leave
    such a book, whatever their arguments. *)
Theorem handlers_keep_book_ok (args : list str) (book : AddressBook) :
  book_ok book ->
  book_ok (snd (Commands.add_contact args book))
  /\ book_ok (snd (Commands.change_contact args book))
  /\ book_ok (snd (Commands.add_birthday args book)).
Proof.
  intros Hok. split; [|split].
  - apply add_contact_book_ok. exact Hok.
  - apply change_contact_book_ok. exact Hok.
  - apply add_birthday_book_ok. exact Hok.
Qed.

(** X16 at the empty book. *)
Lemma handlers_keep_book_ok_witness :
  book_ok (snd (Commands.add_contact [py "Ann"; py "1234567890"]
                  (mkAddressBook [])))
  /\ book_ok (snd (Commands.change_contact [py "Ann"; py "1234567890"]
                     (mkAddressBook [])))
  /\ book_ok (snd (Commands.add_birthday [py "Ann"; py "1234567890"]
                     (mkAddressBook []))).
Proof.
  apply handlers_keep_book_ok. split; constructor.
Defined.

(** X17: [add_contact] with a name that is not in the book and a phone
    [Phone] accepts answers "Contact added." and puts a record of that name
    with that one phone after the others; [show_phone] of the name then
    answers with that phone. *)
Theorem add_contact_then_show_phone (n phone : str) (book : AddressBook) :
  find_record n book = None ->
  Phone_init phone = Ok (mkField phone) ->
  Commands.add_contact [n; phone] book
  = (Return (py "Contact added."),
     mkAddressBook
       (data book ++ [(n, mkContact (mkField n) [mkField phone] None)]))
  /\ Commands.show_phone [n]
       (snd (Commands.add_contact [n; phone] book))
     = (Return (py "Contact for " ++ n ++ py ": " ++ phone),
        snd (Commands.add_contact [n; phone] book)).
Proof.
  intros Hf Hp.
  assert (E : Commands.add_contact [n; phone] book
              = (Return (py "Contact added."),
                 mkAddressBook
                   (data book
                    ++ [(n, mkContact (mkField n) [mkField phone] None)]))).
  { unfold Commands.add_contact, input_error, Commands.add_contact_body.
    cbn [unpack2]. rewrite Hf. unfold Record_init, Name_init. cbn [bind].
    rewrite (Phone_init_truthy _ Hp).
    rewrite add_phone_appends; [|intros []|exact Hp]. cbn [phones name app].
    unfold add_record. cbn [name value birthday].
    unfold find_record in Hf. rewrite dict_set_fresh by exact Hf. reflexivity. }
  split; [exact E|]. rewrite E. cbn [snd].
  unfold Commands.show_phone, input_error, Commands.show_phone_body.
  cbn [first_arg]. unfold find_record. cbn [data].
  assert (G : dict_get n
                (data book ++ [(n, mkContact (mkField n) [mkField phone] None)])
              = Some (mkContact (mkField n) [mkField phone] None)).
  { unfold find_record in Hf. rewrite <- (dict_set_fresh n _ _ Hf).
    apply dict_get_set_same. }
  rewrite G. reflexivity.
Qed.

(** X17 at the empty book. *)
Lemma add_contact_then_show_phone_witness :
  Commands.add_contact [py "Ann"; py "1234567890"] (mkAddressBook [])
  = (Return (py "Contact added."),
     mkAddressBook
       [(py "Ann", mkContact (mkField (py "Ann"))
                     [mkField (py "1234567890")] None)])
  /\ Commands.show_phone [py "Ann"]
       (snd (Commands.add_contact [py "Ann"; py "1234567890"]
               (mkAddressBook [])))
     = (Return (py "Contact for Ann: 1234567890"),
        snd (Commands.add_contact [py "Ann"; py "1234567890"]
               (mkAddressBook []))).
Proof.
  apply (add_contact_then_show_phone (py "Ann") (py "1234567890")
           (mkAddressBook [])); reflexivity.
Defined.

(** X18: for a name that is in the book, [change_contact] answers "Phone
    updated." exactly when the old phone is stored in the record, the new
    one is not, and [Phone] accepts the new one; the record of that name
    then holds the new phone for the old.  In every other case (old phone
    unknown, new phone already there, new phone refused) the answer is the
    one text "Enter the argument for the command" and the book is as it
    was. *)
Theorem change_contact_reply (n old new : str) (book : AddressBook)
    (rec : Contact) :
  find_record n book = Some rec ->
  (stored old rec /\ ~ stored new rec /\ Phone_init new = Ok (mkField new) ->
   Commands.change_contact [n; old; new] book
   = (Return (py "Phone updated."),
      mkAddressBook
        (dict_set n
           (mkContact (name rec) (without old (phones rec) ++ [mkField new])
                      (birthday rec))
           (data book))))
  /\ (~ (stored old rec /\ ~ stored new rec
         /\ Phone_init new = Ok (mkField new)) ->
      Commands.change_contact [n; old; new] book
      = (Return (py "Enter the argument for the command"), book)).
Proof.
  intros Hf.
  unfold Commands.change_contact, input_error, Commands.change_contact_body.
  cbn [unpack3]. rewrite Hf. split.
  - intros (Ho & Hn & Hi). unfold on_record.
    rewrite (edit_phone_replaces old new rec Ho Hn Hi). reflexivity.
  - intros Hnot.
    pose proof (on_record_unchanged n rec (edit_phone old new) book Hf) as Hu.
    unfold on_record in *.
    destruct (edit_phone old new rec) as [[[]|e] rec'] eqn:E.
    + exfalso. apply Hnot.
      destruct (stored_dec old rec) as [Ho|Ho];
        [destruct (stored_dec new rec) as [Hn|Hn];
         [|destruct (Phone_init_cases new) as [Hi|Hi]]|].
      * rewrite edit_phone_duplicate in E by assumption. discriminate.
      * auto.
      * rewrite edit_phone_invalid in E by assumption. discriminate.
      * rewrite edit_phone_missing in E by assumption. discriminate.
    + destruct (edit_phone_Raise _ _ _ _ _ E) as [-> [m ->]]. simpl in *.
      rewrite Hu by reflexivity. reflexivity.
Qed.

(** X18 at a book with one record of one phone. *)
Lemma change_contact_reply_witness :
  Commands.change_contact [py "Ann"; py "1234567890"; py "0987654321"]
    (mkAddressBook
       [(py "Ann", mkContact (mkField (py "Ann"))
                     [mkField (py "1234567890")] None)])
  = (Return (py "Phone updated."),
     mkAddressBook
       [(py "Ann", mkContact (mkField (py "Ann"))
                     [mkField (py "0987654321")] None)]).
Proof.
  apply (change_contact_reply (py "Ann") (py "1234567890") (py "0987654321")
           (mkAddressBook
              [(py "Ann", mkContact (mkField (py "Ann"))
                            [mkField (py "1234567890")] None)])
           (mkContact (mkField (py "Ann")) [mkField (py "1234567890")] None)).
  - reflexivity.
  - split; [left; reflexivity|]. split; [|reflexivity].
    intros [H|[]]. discriminate.
Defined.

(** X19: for a record of the book with no birthday and a text [Birthday]
    accepts, the handler [add_birthday] answers "Birthday added.";
    [show_birthday] of the name then answers with that very text, and a
    second [add_birthday] of the name is refused and changes nothing. *)
Theorem add_birthday_then_show (n raw raw' : str) (book : AddressBook)
    (rec : Contact) :
  find_record n book = Some rec ->
  birthday rec = None ->
  Birthday_init raw = Ok (mkField raw) ->
  exists book',
    Commands.add_birthday [n; raw] book = (Return (py "Birthday added."), book')
    /\ Commands.show_birthday [n] book' = (Return (n ++ py ": " ++ raw), book')
    /\ Commands.add_birthday [n; raw'] book'
       = (Return (py "Enter the argument for the command"), book').
Proof.
  intros Hf Hb Hi.
  exists (mkAddressBook
            (dict_set n (mkContact (name rec) (phones rec) (Some (mkField raw)))
               (data book))).
  assert (G : find_record n
                (mkAddressBook
                   (dict_set n
                      (mkContact (name rec) (phones rec) (Some (mkField raw)))
                      (data book)))
              = Some (mkContact (name rec) (phones rec) (Some (mkField raw))))
    by apply dict_get_set_same.
  split; [|split].
  - unfold Commands.add_birthday, input_error, Commands.add_birthday_body.
    cbn [unpack2]. rewrite Hf. unfold on_record, add_birthday.
    rewrite Hb. unfold mbind, pure_call, set_birthday. rewrite Hi. reflexivity.
  - unfold Commands.show_birthday, input_error, Commands.show_birthday_body.
    cbn [first_arg]. rewrite G. reflexivity.
  - unfold Commands.add_birthday, input_error, Commands.add_birthday_body.
    cbn [unpack2]. rewrite G. unfold on_record, add_birthday. cbn [birthday].
    unfold throw. cbn [of_outcome data].
    rewrite dict_set_same by apply dict_get_set_same. reflexivity.
Qed.

(** X19 at a book with one record. *)
Lemma add_birthday_then_show_witness :
  exists book',
    Commands.add_birthday [py "Ann"; py "24.08.1991"]
      (mkAddressBook [(py "Ann", mkContact (mkField (py "Ann")) [] None)])
    = (Return (py "Birthday added."), book')
    /\ Commands.show_birthday [py "Ann"] book'
       = (Return (py "Ann: 24.08.1991"), book')
    /\ Commands.add_birthday [py "Ann"; py "01.01.2000"] book'
       = (Return (py "Enter the argument for the command"), book').
Proof.
  apply (add_birthday_then_show (py "Ann") (py "24.08.1991") (py "01.01.2000")
           (mkAddressBook [(py "Ann", mkContact (mkField (py "Ann")) [] None)])
           (mkContact (mkField (py "Ann")) [] None)); reflexivity.
Defined.

(** X20: [change_contact] and the handler [add_birthday], given their
    three and two arguments, answer "Contact not found." exactly when the
    name is not in the book; so do [show_phone] and [show_birthday] for a
    name that is not in the book, whatever follows the name. *)
Theorem contact_not_found (n : str) (book : AddressBook) :
  (forall old new,
     fst (Commands.change_contact [n; old; new] book)
     = Return (py "Contact not found.") <-> find_record n book = None)
  /\ (forall raw,
        fst (Commands.add_birthday [n; raw] book)
        = Return (py "Contact not found.") <-> find_record n book = None)
  /\ (find_record n book = None ->
      forall rest,
        Commands.show_phone (n :: rest) book
        = (Return (py "Contact not found."), book)
        /\ Commands.show_birthday (n :: rest) book
           = (Return (py "Contact not found."), book)).
Proof.
  split; [|split].
  - intros old new.
    unfold Commands.change_contact, input_error, Commands.change_contact_body.
    cbn [unpack3]. destruct (find_record n book) as [rec|]; [|tauto].
    unfold on_record.
    destruct (edit_phone old new rec) as [[[]|[m|m]] rec'];
      simpl; split; discriminate.
  - intros raw.
    unfold Commands.add_birthday, input_error, Commands.add_birthday_body.
    cbn [unpack2]. destruct (find_record n book) as [rec|]; [|tauto].
    unfold on_record.
    destruct (add_birthday raw rec) as [[[]|[m|m]] rec'];
      simpl; split; discriminate.
  - intros Hf rest.
    unfold Commands.show_phone, Commands.show_phone_body,
      Commands.show_birthday, Commands.show_birthday_body, input_error.
    cbn [first_arg]. rewrite Hf. split; reflexivity.
Qed.

(** ** parse_input *)

Lemma lstrip_nil (s : str) : lstrip s = [] <-> blank s = true.
Proof.
  unfold blank. induction s as [|c s IH]; simpl; [tauto|].
  destruct (char_isspace c); simpl; [exact IH|]. split; discriminate.
Qed.

Lemma lstrip_blank_false (s : str) : blank s = false -> blank (lstrip s) = false.
Proof.
  unfold blank. induction s as [|c s IH]; simpl; [discriminate|].
  destruct (char_isspace c) eqn:E; simpl; [exact IH|]. rewrite E. reflexivity.
Qed.

Lemma blank_rev (s : str) : blank (rev s) = blank s.
Proof.
  unfold blank. induction s as [|c s IH]; simpl; [reflexivity|].
  rewrite forallb_app. simpl. rewrite IH, andb_true_r. apply andb_comm.
Qed.

Lemma strip_blank (s : str) : blank s = true -> strip s = [].
Proof.
  intros H. unfold strip, rstrip. apply lstrip_nil in H. rewrite H. reflexivity.
Qed.

Lemma strip_not_blank (s : str) : blank s = false -> blank (strip s) = false.
Proof.
  intros H. unfold strip, rstrip. rewrite blank_rev.
  apply lstrip_blank_false. rewrite blank_rev.
  apply lstrip_blank_false. exact H.
Qed.

Lemma split_from_nil (w s : str) :
  split_from w s = [] <-> w = [] /\ blank s = true.
Proof.
  unfold blank. revert w. induction s as [|c s IH]; intros w; simpl.
  - destruct w; split; try tauto; try discriminate. intros [H _]. discriminate.
  - destruct (char_isspace c); simpl.
    + destruct w; [apply IH|]. split; [discriminate | intros [H _]; discriminate].
    + rewrite IH. split; [|intros [_ H]; discriminate].
      intros [H _]. destruct w; discriminate.
Qed.



Lemma split_from_space (w s : str) (c : char) :
  char_isspace c = true ->
  split_from w (c :: s)
  = match w with [] => split_from [] s | _ => w :: split_from [] s end.
Proof. intros H. simpl. rewrite H. reflexivity. Qed.

Lemma split_from_token_prefix (w t s : str) :
  Forall (fun c => char_isspace c = false) t ->
  split_from w (t ++ s) = split_from (w ++ t) s.
Proof.
  revert w. induction t as [|c t IH]; intros w H; simpl.
  - rewrite app_nil_r. reflexivity.
  - inversion H as [|? ? Hc Ht]; subst. rewrite Hc.
    rewrite (IH _ Ht), <- app_assoc. reflexivity.
Qed.

Lemma join_cons (sep x y : str) (ws : list str) :
  join sep (x :: y :: ws) = x ++ sep ++ join sep (y :: ws).
Proof. reflexivity. Qed.

Lemma split_join (ws : list str) :
  Forall token ws -> split (join (py " ") ws) = ws.
Proof.
  unfold split. induction ws as [|x ws IH]; intros H; [reflexivity|].
  inversion H as [|? ? [Hne Hx] Hws]; subst.
  destruct ws as [|y ws]; [cbn [join] | rewrite join_cons].
  - rewrite <- (app_nil_r x) at 1.
    rewrite split_from_token_prefix by exact Hx. simpl.
    destruct x; [contradiction | reflexivity].
  - rewrite split_from_token_prefix by exact Hx.
    change (py " " ++ join (py " ") (y :: ws))
      with (32%N :: join (py " ") (y :: ws)).
    rewrite split_from_space by reflexivity. rewrite (IH Hws).
    destruct x; [contradiction | reflexivity].
Qed.

Lemma lstrip_token_prefix (x s : str) :
  token x -> lstrip (x ++ s) = x ++ s.
Proof.
  intros [Hne Hx]. destruct x as [|c x]; [contradiction|].
  inversion Hx as [|? ? Hc _]; subst. simpl. rewrite Hc. reflexivity.
Qed.

Lemma join_tokens_edges (x : str) (ws : list str) :
  Forall token (x :: ws) ->
  (exists c s, join (py " ") (x :: ws) = c :: s /\ char_isspace c = false)
  /\ (exists c s, rev (join (py " ") (x :: ws)) = c :: s
                  /\ char_isspace c = false).
Proof.
  revert x. induction ws as [|y ws IH]; intros x H;
    inversion H as [|? ? [Hne Hx] Hws]; subst.
  - cbn [join]. split.
    + destruct x as [|c x]; [contradiction|].
      inversion Hx; subst. eauto.
    + destruct (rev x) as [|c s] eqn:E.
      * apply (f_equal (@rev _)) in E. rewrite rev_involutive in E.
        simpl in E. contradiction.
      * exists c, s. split; [reflexivity|].
        rewrite Forall_forall in Hx. apply Hx. apply in_rev. rewrite E.
        left. reflexivity.
  - destruct (IH y Hws) as [_ (c & s & E & Hc)]. rewrite join_cons. split.
    + destruct x as [|c0 x]; [contradiction|].
      inversion Hx; subst. simpl. eauto.
    + rewrite !rev_app_distr, E. simpl. eauto.
Qed.

Lemma strip_join (x : str) (ws : list str) :
  Forall token (x :: ws) ->
  strip (join (py " ") (x :: ws)) = join (py " ") (x :: ws).
Proof.
  intros H. destruct (join_tokens_edges x ws H)
    as [(c & s & E & Hc) (c' & s' & E' & Hc')].
  unfold strip, rstrip. rewrite E. simpl lstrip. rewrite Hc. rewrite <- E.
  rewrite E'. simpl lstrip. rewrite Hc'. rewrite <- E'.
  apply rev_involutive.
Qed.

(** X22: a line made of tokens with one blank between them parses back to
    those tokens: [parse_input] returns the first one, lowered, and the
    list of the others. *)
Theorem parse_input_join (lower : str -> str) (cmd : str) (args : list str) :
  Forall token (cmd :: args) ->
  parse_input lower (join (py " ") (cmd :: args)) = Return (lower cmd, args).
Proof.
  intros H. unfold parse_input. rewrite (strip_join cmd args H).
  rewrite (split_join _ H). reflexivity.
Qed.

(** X22 at the line of an [add] command. *)
Lemma parse_input_join_witness :
  parse_input (fun s => s) (py "add Ann 1234567890")
  = Return (py "add", [py "Ann"; py "1234567890"]).
Proof.
  apply (parse_input_join (fun s => s) (py "add") [py "Ann"; py "1234567890"]).
  repeat constructor; try discriminate.
Defined.

(** ** main *)

Lemma printed_snd (h : command str) (book : AddressBook) :
  snd (printed h book) = snd (h book).
Proof. unfold printed. destruct (h book) as [[t|e] b]; reflexivity. Qed.

Lemma turn_book_ok (lower : str -> str) (clock : Clock) (line : str)
    (book : AddressBook) :
  book_ok book -> book_ok (snd (turn lower clock line book)).
Proof.
  intros Hok. unfold turn.
  destruct (negb (truthy (strip line))); [exact Hok|].
  destruct (parse_input lower (strip line)) as [[cmd args]|e]; [|exact Hok].
  repeat match goal with
         | |- context [if ?b then _ else _] => destruct b
         end;
    try exact Hok; rewrite printed_snd.
  - apply add_contact_book_ok. exact Hok.
  - apply change_contact_book_ok. exact Hok.
  - unfold Commands.show_phone. rewrite snd_input_error.
    unfold Commands.show_phone_body. destruct (first_arg args); [|exact Hok].
    destruct (find_record a book); exact Hok.
  - apply add_birthday_book_ok. exact Hok.
  - unfold Commands.show_birthday. rewrite snd_input_error.
    unfold Commands.show_birthday_body. destruct (first_arg args); [|exact Hok].
    destruct (find_record a book) as [rec|]; [|exact Hok].
    destruct (birthday rec); exact Hok.
  - unfold Commands.birthdays. rewrite snd_input_error.
    unfold Commands.birthdays_body.
    destruct (get_upcoming_birthdays clock book) as [l|]; [|exact Hok].
    destruct (truthy l); exact Hok.
Qed.

(** X23: whatever the user types, the book [main] ends with is in order:
    no name twice, every record under its own name, in every record no
    phone twice, only phones and a birthday their classes accept. *)
Theorem main_keeps_book_ok (lower : str -> str) (inputs : list (Clock * str)) :
  book_ok (snd (main lower inputs))
  /\ Forall (fun kv => well_formed (snd kv)) (data (snd (main lower inputs))).
Proof.
  assert (H : forall book, book_ok book ->
                book_ok (snd (main_loop lower inputs book))).
  { induction inputs as [|[clock line] rest IH]; intros book Hok; simpl;
      [exact Hok|].
    pose proof (turn_book_ok lower clock line book Hok) as Ht.
    destruct (turn lower clock line book) as [[[text [|]]|e] book']; simpl in *;
      try exact Ht.
    specialize (IH book' Ht).
    destruct (main_loop lower rest book') as [[out e] b]. exact IH. }
  assert (Hm : book_ok (snd (main lower inputs))).
  { unfold main. specialize (H (mkAddressBook []) (conj (NoDup_nil _) (Forall_nil _))).
    destruct (main_loop lower inputs (mkAddressBook [])) as [[out e] b].
    exact H. }
  split; [exact Hm|]. destruct Hm as [_ Hall].
  eapply Forall_impl; [|exact Hall]. intros kv [_ Hr].
  apply reachable_well_formed. exact Hr.
Qed.

Lemma printed_answers (h : command str) (book : AddressBook) :
  answers (h book) -> exists text, fst (printed h book) = Return (text, true).
Proof.
  intros [text H]. unfold printed. destruct (h book) as [[t|e] b]; simpl in *;
    [|discriminate]. eauto.
Qed.

Lemma turn_answers (lower : str -> str) (clock : Clock) (line : str)
    (book : AddressBook) :
  good_clock clock ->
  exists text go, fst (turn lower clock line book) = Return (text, go).
Proof.
  intros [Vt Hmax]. unfold turn.
  destruct (truthy (strip line)) eqn:T; cbn [negb]; [|simpl; eauto].
  assert (B : blank (strip line) = false).
  { destruct (blank line) eqn:B0.
    - rewrite (strip_blank _ B0) in T. discriminate.
    - apply strip_not_blank. exact B0. }
  unfold parse_input, split.
  destruct (split_from [] (strip (strip line))) as [|first args] eqn:E.
  { apply split_from_nil in E. destruct E as [_ E].
    apply strip_not_blank in B. congruence. }
  repeat match goal with
         | |- context [if ?b then _ else _] => destruct b
         end; simpl fst; eauto;
    match goal with
    | |- exists text go, fst (printed ?h ?b) = _ =>
        let H := fresh in
        assert (H : answers (h b));
        [| destruct (printed_answers h b H) as [text Ht]; exists text, true;
           exact Ht]
    end.
  - apply add_contact_answers.
  - apply change_contact_answers.
  - apply show_phone_answers.
  - apply add_birthday_answers.
  - apply show_birthday_answers.
  - apply birthdays_answers; assumption.
Qed.

(** X24: as long as the clock gives real dates up to 25.12.9999, no run of
    [main] ends on an exception of the program: it ends on [close] or
    [exit], or goes on until there is no input left. *)
Theorem main_never_crashes (lower : str -> str) (inputs : list (Clock * str)) :
  Forall (fun input => good_clock (fst input)) inputs ->
  snd (fst (main lower inputs)) = Closed
  \/ snd (fst (main lower inputs)) = InputEnded.
Proof.
  intros H.
  assert (G : forall book,
            snd (fst (main_loop lower inputs book)) = Closed
            \/ snd (fst (main_loop lower inputs book)) = InputEnded).
  { induction inputs as [|[clock line] rest IH]; intros book; simpl;
      [right; reflexivity|].
    inversion H as [|? ? Hc Hrest]; subst.
    destruct (turn_answers lower clock line book Hc) as (text & go & Ht).
    destruct (turn lower clock line book) as [[[t g]|e] book']; simpl in Ht;
      [|discriminate].
    destruct g; [|left; reflexivity].
    specialize (IH Hrest book').
    destruct (main_loop lower rest book') as [[out e] b]. exact IH. }
  unfold main. specialize (G (mkAddressBook [])).
  destruct (main_loop lower inputs (mkAddressBook [])) as [[out e] b]. exact G.
Qed.

(** X24 at a run of three commands. *)
Lemma main_never_crashes_witness :
  snd (fst (main (fun s => s)
              [(mkClock (mkdate 2024 6 10) 0, py "add Ann 1234567890");
               (mkClock (mkdate 2024 6 10) 0, py "birthdays");
               (mkClock (mkdate 2024 6 10) 0, py "close")])) = Closed
  \/ snd (fst (main (fun s => s)
                 [(mkClock (mkdate 2024 6 10) 0, py "add Ann 1234567890");
                  (mkClock (mkdate 2024 6 10) 0, py "birthdays");
                  (mkClock (mkdate 2024 6 10) 0, py "close")])) = InputEnded.
Proof.
  apply main_never_crashes.
  assert (G : good_clock (mkClock (mkdate 2024 6 10) 0)).
  { split.
    - unfold valid_date, MINYEAR, MAXYEAR, date_today.
      cbn [year month day clock_date].
      change (_days_in_month 2024 6) with 30. lia.
    - vm_compute. discriminate. }
  repeat (constructor; [exact G|]). constructor.
Defined.
